(** * Combat tracker: initiative order and turn state machine

    A shallow embedding of [app/models/combat.py] and [app/api/combat.py].
    The process-wide dictionary [active_combats] is the state threaded
    through every request handler; a handler either returns a response or
    raises, and in both cases hands back the dictionary as it left it. *)

From Stdlib Require Import ZArith Lia.
From stdpp Require Import gmap strings list fin_maps sorting.

Local Open Scope string_scope.

(** ** Data model ([app/models/combat.py]) *)

(** [class Combatant(BaseModel)]. The fields [id], [name] and [type] carry a
    prefix because the bare names are shared with [CombatState]. *)
Record Combatant : Type := mkCombatant {
  c_id : string;
  c_name : string;
  initiative : Z;
  hp_current : Z;
  hp_max : Z;
  ac : option Z;
  c_type : string;
  conditions : list string;
  notes : string;
  monster_index : option string
}.

(** [class CombatState(BaseModel)]. *)
Record CombatState : Type := mkCombatState {
  cs_id : string;
  cs_name : string;
  combatants : list Combatant;
  current_turn : Z;
  round_number : Z;
  is_active : bool;
  created_at : string;
  updated_at : string
}.

Record CreateCombatRequest : Type := mkCreateCombatRequest {
  ccr_name : string
}.

Record AddCombatantRequest : Type := mkAddCombatantRequest {
  acr_combat_id : string;
  acr_name : string;
  acr_initiative : Z;
  acr_hp_current : Z;
  acr_hp_max : Z;
  acr_ac : option Z;
  acr_type : string;
  acr_monster_index : option string
}.

Record UpdateHPRequest : Type := mkUpdateHPRequest {
  uhr_combat_id : string;
  uhr_combatant_id : string;
  hp_change : Z
}.

Record AddConditionRequest : Type := mkAddConditionRequest {
  adr_combat_id : string;
  adr_combatant_id : string;
  adr_condition : string
}.

Record RemoveConditionRequest : Type := mkRemoveConditionRequest {
  rcr_combat_id : string;
  rcr_combatant_id : string;
  rcr_condition : string
}.

Record NextTurnRequest : Type := mkNextTurnRequest {
  ntr_combat_id : string
}.

(** Attribute assignment on a model object. *)
Definition set_hp_current (v : Z) (c : Combatant) : Combatant :=
  mkCombatant (c_id c) (c_name c) (initiative c) v (hp_max c) (ac c)
              (c_type c) (conditions c) (notes c) (monster_index c).

Definition set_conditions (v : list string) (c : Combatant) : Combatant :=
  mkCombatant (c_id c) (c_name c) (initiative c) (hp_current c) (hp_max c)
              (ac c) (c_type c) v (notes c) (monster_index c).

Definition set_combatants (v : list Combatant) (s : CombatState) : CombatState :=
  mkCombatState (cs_id s) (cs_name s) v (current_turn s) (round_number s)
                (is_active s) (created_at s) (updated_at s).

Definition set_current_turn (v : Z) (s : CombatState) : CombatState :=
  mkCombatState (cs_id s) (cs_name s) (combatants s) v (round_number s)
                (is_active s) (created_at s) (updated_at s).

Definition set_round_number (v : Z) (s : CombatState) : CombatState :=
  mkCombatState (cs_id s) (cs_name s) (combatants s) (current_turn s) v
                (is_active s) (created_at s) (updated_at s).

Definition set_updated_at (v : string) (s : CombatState) : CombatState :=
  mkCombatState (cs_id s) (cs_name s) (combatants s) (current_turn s)
                (round_number s) (is_active s) (created_at s) v.

(** ** Python list operations used by the handlers *)

(** [next((c for c in l if c.id == cid), None)]. *)
Fixpoint find_combatant (cid : string) (l : list Combatant) : option Combatant :=
  match l with
  | [] => None
  | c :: l' => if String.eqb (c_id c) cid then Some c else find_combatant cid l'
  end.

(** Mutation through the reference returned by [next(...)]: the first
    element whose id matches is the object that changes. *)
Fixpoint alter_combatant (f : Combatant → Combatant) (cid : string)
    (l : list Combatant) : list Combatant :=
  match l with
  | [] => []
  | c :: l' =>
      if String.eqb (c_id c) cid then f c :: l'
      else c :: alter_combatant f cid l'
  end.

(** [x in l] on a list of strings. *)
Fixpoint str_in (x : string) (l : list string) : bool :=
  match l with
  | [] => false
  | y :: l' => if String.eqb y x then true else str_in x l'
  end.

(** [l.remove(x)]: drops the first occurrence. *)
Fixpoint list_remove_first (x : string) (l : list string) : list string :=
  match l with
  | [] => []
  | y :: l' => if String.eqb y x then l' else y :: list_remove_first x l'
  end.

(** [[c for c in l if c.id != cid]]. *)
Definition without_combatant (cid : string) (l : list Combatant) : list Combatant :=
  filter (λ c, c_id c ≠ cid) l.

(** [l.sort(key=lambda c: c.initiative, reverse=True)]. Python's sort is
    stable, also under [reverse=True]: the result is the unique
    arrangement in descending key order that keeps elements with equal keys
    in their original relative order. Insertion from the right, placing an
    element in front of the first one whose key is not greater, computes it. *)
Fixpoint insert_by_initiative (x : Combatant) (l : list Combatant) : list Combatant :=
  match l with
  | [] => [x]
  | y :: l' =>
      if (initiative y <=? initiative x)%Z then x :: l
      else y :: insert_by_initiative x l'
  end.

Definition sort_by_initiative_desc (l : list Combatant) : list Combatant :=
  foldr insert_by_initiative [] l.

(** ** Handlers as state-and-exception computations *)

Inductive Exception : Type :=
| HTTPException (status_code : Z) (detail : string)
| KeyError (key : string).

(** A handler runs against [active_combats] and returns it together with
    either the raised exception or the response. *)
Definition Handler (A : Type) : Type :=
  gmap string CombatState → gmap string CombatState * (Exception + A).

Global Instance Handler_ret : MRet Handler := λ A a σ, (σ, inr a).

Global Instance Handler_bind : MBind Handler := λ A B k m σ,
  match m σ with
  | (σ', inl e) => (σ', inl e)
  | (σ', inr a) => k a σ'
  end.

Definition raise {A : Type} (e : Exception) : Handler A := λ σ, (σ, inl e).

(** [k in active_combats] *)
Definition contains (k : string) : Handler bool :=
  λ σ, (σ, inr (match σ !! k with Some _ => true | None => false end)).

(** [active_combats[k]] *)
Definition getitem (k : string) : Handler CombatState :=
  λ σ, match σ !! k with
       | Some c => (σ, inr c)
       | None => (σ, inl (KeyError k))
       end.

(** [active_combats[k] = v] *)
Definition setitem (k : string) (v : CombatState) : Handler unit :=
  λ σ, (<[k := v]> σ, inr tt).

(** [del active_combats[k]] *)
Definition delitem (k : string) : Handler unit :=
  λ σ, match σ !! k with
       | Some _ => (delete k σ, inr tt)
       | None => (σ, inl (KeyError k))
       end.

(** An attribute write through the reference [combat = active_combats[k]]:
    the object stored under [k] changes in place. *)
Definition setattr (k : string) (f : CombatState → CombatState) : Handler unit :=
  λ σ, (alter f k σ, inr tt).

(** A write to the combatant object found by [next(...)] in the session
    stored under [k]. *)
Definition setattr_combatant (k cid : string) (f : Combatant → Combatant)
    : Handler unit :=
  setattr k (λ s, set_combatants (alter_combatant f cid (combatants s)) s).

Definition len {A : Type} (l : list A) : Z := Z.of_nat (length l).

(** ** Endpoints ([app/api/combat.py])

    [uuid] stands for the value of [str(uuid.uuid4())] and [now] for
    [datetime.utcnow().isoformat()] drawn during the call. *)

Definition create_combat (uuid now : string) (request : CreateCombatRequest)
    : Handler CombatState :=
  let combat_id := uuid in
  let combat := mkCombatState combat_id (ccr_name request) [] 0 1 true now now in
  setitem combat_id combat ;;
  mret combat.

Definition get_combat (combat_id : string) : Handler CombatState :=
  present ← contains combat_id;
  if negb present then raise (HTTPException 404 "Combat not found") else
  getitem combat_id.

Definition add_combatant (uuid now : string) (request : AddCombatantRequest)
    : Handler CombatState :=
  present ← contains (acr_combat_id request);
  if negb present then raise (HTTPException 404 "Combat not found") else
  let combat := acr_combat_id request in
  let combatant :=
    mkCombatant uuid (acr_name request) (acr_initiative request)
                (acr_hp_current request) (acr_hp_max request) (acr_ac request)
                (acr_type request) [] "" (acr_monster_index request) in
  setattr combat (λ s, set_combatants (combatants s ++ [combatant]) s) ;;
  setattr combat (λ s, set_combatants (sort_by_initiative_desc (combatants s)) s) ;;
  setattr combat (set_updated_at now) ;;
  getitem combat.

Definition update_hp (now : string) (request : UpdateHPRequest)
    : Handler CombatState :=
  present ← contains (uhr_combat_id request);
  if negb present then raise (HTTPException 404 "Combat not found") else
  let combat := uhr_combat_id request in
  s ← getitem combat;
  match find_combatant (uhr_combatant_id request) (combatants s) with
  | None => raise (HTTPException 404 "Combatant not found")
  | Some _ =>
      let combatant := uhr_combatant_id request in
      setattr_combatant combat combatant
        (λ c, set_hp_current (hp_current c + hp_change request) c) ;;
      setattr_combatant combat combatant
        (λ c, set_hp_current (Z.max 0 (Z.min (hp_current c) (hp_max c))) c) ;;
      setattr combat (set_updated_at now) ;;
      getitem combat
  end.

Definition add_condition (now : string) (request : AddConditionRequest)
    : Handler CombatState :=
  present ← contains (adr_combat_id request);
  if negb present then raise (HTTPException 404 "Combat not found") else
  let combat := adr_combat_id request in
  s ← getitem combat;
  match find_combatant (adr_combatant_id request) (combatants s) with
  | None => raise (HTTPException 404 "Combatant not found")
  | Some c =>
      let combatant := adr_combatant_id request in
      (if negb (str_in (adr_condition request) (conditions c))
       then setattr_combatant combat combatant
              (λ c, set_conditions (conditions c ++ [adr_condition request]) c)
       else mret tt) ;;
      setattr combat (set_updated_at now) ;;
      getitem combat
  end.

Definition remove_condition (now : string) (request : RemoveConditionRequest)
    : Handler CombatState :=
  present ← contains (rcr_combat_id request);
  if negb present then raise (HTTPException 404 "Combat not found") else
  let combat := rcr_combat_id request in
  s ← getitem combat;
  match find_combatant (rcr_combatant_id request) (combatants s) with
  | None => raise (HTTPException 404 "Combatant not found")
  | Some c =>
      let combatant := rcr_combatant_id request in
      (if str_in (rcr_condition request) (conditions c)
       then setattr_combatant combat combatant
              (λ c, set_conditions
                      (list_remove_first (rcr_condition request) (conditions c)) c)
       else mret tt) ;;
      setattr combat (set_updated_at now) ;;
      getitem combat
  end.

Definition next_turn (now : string) (request : NextTurnRequest)
    : Handler CombatState :=
  present ← contains (ntr_combat_id request);
  if negb present then raise (HTTPException 404 "Combat not found") else
  let combat := ntr_combat_id request in
  s ← getitem combat;
  match combatants s with
  | [] => raise (HTTPException 400 "No combatants in initiative")
  | _ :: _ =>
      setattr combat (λ s, set_current_turn (current_turn s + 1) s) ;;
      s ← getitem combat;
      (if (len (combatants s) <=? current_turn s)%Z
       then setattr combat (set_current_turn 0) ;;
            setattr combat (λ s, set_round_number (round_number s + 1) s)
       else mret tt) ;;
      setattr combat (set_updated_at now) ;;
      getitem combat
  end.

Definition remove_combatant (now combat_id combatant_id : string)
    : Handler CombatState :=
  present ← contains combat_id;
  if negb present then raise (HTTPException 404 "Combat not found") else
  let combat := combat_id in
  setattr combat
    (λ s, set_combatants (without_combatant combatant_id (combatants s)) s) ;;
  s ← getitem combat;
  (if (len (combatants s) <=? current_turn s)%Z
      && match combatants s with [] => false | _ :: _ => true end
   then setattr combat (set_current_turn 0)
   else mret tt) ;;
  setattr combat (set_updated_at now) ;;
  getitem combat.

Definition delete_combat (combat_id : string) : Handler string :=
  present ← contains combat_id;
  if negb present then raise (HTTPException 404 "Combat not found") else
  delitem combat_id ;;
  mret "Combat deleted successfully".

(** ** Requests and traces *)

(** One request to the router. *)
Inductive Request : Type :=
| CreateCombat (uuid now : string) (request : CreateCombatRequest)
| GetCombat (combat_id : string)
| AddCombatant (uuid now : string) (request : AddCombatantRequest)
| UpdateHP (now : string) (request : UpdateHPRequest)
| AddCondition (now : string) (request : AddConditionRequest)
| RemoveCondition (now : string) (request : RemoveConditionRequest)
| NextTurn (now : string) (request : NextTurnRequest)
| RemoveCombatant (now combat_id combatant_id : string)
| DeleteCombat (combat_id : string).

Inductive Response : Type :=
| RespState (s : CombatState)
| RespMessage (m : string).

Definition respond {A : Type} (f : A → Response) (h : Handler A) : Handler Response :=
  a ← h; mret (f a).

Definition dispatch (q : Request) : Handler Response :=
  match q with
  | CreateCombat uuid now r => respond RespState (create_combat uuid now r)
  | GetCombat k => respond RespState (get_combat k)
  | AddCombatant uuid now r => respond RespState (add_combatant uuid now r)
  | UpdateHP now r => respond RespState (update_hp now r)
  | AddCondition now r => respond RespState (add_condition now r)
  | RemoveCondition now r => respond RespState (remove_condition now r)
  | NextTurn now r => respond RespState (next_turn now r)
  | RemoveCombatant now k cid => respond RespState (remove_combatant now k cid)
  | DeleteCombat k => respond RespMessage (delete_combat k)
  end.

(** The dictionary after serving the requests of a trace in order. *)
Definition serve (qs : list Request) (σ : gmap string CombatState)
    : gmap string CombatState :=
  foldl (λ σ q, (dispatch q σ).1) σ qs.

(** The values drawn from [uuid.uuid4()] along a trace, in order. *)
Definition uuids (qs : list Request) : list string :=
  qs ≫= λ q, match q with
             | CreateCombat uuid _ _ => [uuid]
             | AddCombatant uuid _ _ => [uuid]
             | _ => []
             end.

(** A state of the running process: the dictionary starts empty at import
    time, and [uuid4] never hands out the same value twice. [ok] restricts
    the requests that were served. *)
Definition reachable_by (ok : Request → Prop) (σ : gmap string CombatState) : Prop :=
  ∃ qs, NoDup (uuids qs) ∧ Forall ok qs ∧ σ = serve qs ∅.

Definition reachable : gmap string CombatState → Prop :=
  reachable_by (λ _, True).

(** ** What each handler does to the session it addresses

    The definitions below are the closed forms of the handlers: pure
    functions on one session, proved further down to be what the handlers
    above store in the dictionary. *)

(** The three exceptions the handlers raise. *)
Definition not_found_combat : Exception := HTTPException 404 "Combat not found".
Definition not_found_combatant : Exception := HTTPException 404 "Combatant not found".
Definition no_combatants : Exception := HTTPException 400 "No combatants in initiative".

(** The session [create_combat] stores. *)
Definition new_combat (uuid now : string) (request : CreateCombatRequest) : CombatState :=
  mkCombatState uuid (ccr_name request) [] 0 1 true now now.

(** The combatant [add_combatant] builds from its request. *)
Definition new_combatant (uuid : string) (request : AddCombatantRequest) : Combatant :=
  mkCombatant uuid (acr_name request) (acr_initiative request)
              (acr_hp_current request) (acr_hp_max request) (acr_ac request)
              (acr_type request) [] "" (acr_monster_index request).

(** [add_combatant]: append, sort, stamp. *)
Definition with_combatant (uuid now : string) (request : AddCombatantRequest)
    (s : CombatState) : CombatState :=
  set_updated_at now
    (set_combatants
       (sort_by_initiative_desc (combatants s ++ [new_combatant uuid request])) s).

(** [update_hp] on the combatant: add the change, then clamp. *)
Definition clamp_hp (delta : Z) (c : Combatant) : Combatant :=
  set_hp_current (Z.max 0 (Z.min (hp_current c + delta) (hp_max c))) c.

Definition with_hp (now : string) (request : UpdateHPRequest) (s : CombatState)
    : CombatState :=
  set_updated_at now
    (set_combatants
       (alter_combatant (clamp_hp (hp_change request)) (uhr_combatant_id request)
          (combatants s)) s).

(** [add_condition] and [remove_condition] on the combatant. *)
Definition put_condition (x : string) (c : Combatant) : Combatant :=
  if str_in x (conditions c) then c else set_conditions (conditions c ++ [x]) c.

Definition drop_condition (x : string) (c : Combatant) : Combatant :=
  if str_in x (conditions c)
  then set_conditions (list_remove_first x (conditions c)) c else c.

Definition with_condition (now : string) (request : AddConditionRequest)
    (s : CombatState) : CombatState :=
  set_updated_at now
    (set_combatants
       (alter_combatant (put_condition (adr_condition request))
          (adr_combatant_id request) (combatants s)) s).

Definition without_condition (now : string) (request : RemoveConditionRequest)
    (s : CombatState) : CombatState :=
  set_updated_at now
    (set_combatants
       (alter_combatant (drop_condition (rcr_condition request))
          (rcr_combatant_id request) (combatants s)) s).

(** [next_turn] on a session that has combatants. *)
Definition advanced (now : string) (s : CombatState) : CombatState :=
  set_updated_at now
    (if (len (combatants s) <=? current_turn s + 1)%Z
     then set_round_number (round_number s + 1) (set_current_turn 0 s)
     else set_current_turn (current_turn s + 1) s).

(** [remove_combatant]: filter, then pull the cursor back to 0 if it fell
    off the end of a sequence that is not empty. *)
Definition removed (now cid : string) (s : CombatState) : CombatState :=
  let l := without_combatant cid (combatants s) in
  set_updated_at now
    (if (len l <=? current_turn s)%Z && match l with [] => false | _ :: _ => true end
     then set_current_turn 0 (set_combatants l s)
     else set_combatants l s).

(** ** One request, seen from the dictionary *)

(** The session a request addresses. *)
Definition target (q : Request) : option string :=
  match q with
  | CreateCombat _ _ _ => None
  | GetCombat k => Some k
  | AddCombatant _ _ r => Some (acr_combat_id r)
  | UpdateHP _ r => Some (uhr_combat_id r)
  | AddCondition _ r => Some (adr_combat_id r)
  | RemoveCondition _ r => Some (rcr_combat_id r)
  | NextTurn _ r => Some (ntr_combat_id r)
  | RemoveCombatant _ k _ => Some k
  | DeleteCombat k => Some k
  end.

(** What a request that succeeds stores in place of the session [s] it
    addresses; [None] when it raises or does not write a session. *)
Definition session_after (q : Request) (s : CombatState) : option CombatState :=
  match q with
  | CreateCombat _ _ _ | GetCombat _ | DeleteCombat _ => None
  | AddCombatant uuid now r => Some (with_combatant uuid now r s)
  | UpdateHP now r =>
      match find_combatant (uhr_combatant_id r) (combatants s) with
      | Some _ => Some (with_hp now r s)
      | None => None
      end
  | AddCondition now r =>
      match find_combatant (adr_combatant_id r) (combatants s) with
      | Some _ => Some (with_condition now r s)
      | None => None
      end
  | RemoveCondition now r =>
      match find_combatant (rcr_combatant_id r) (combatants s) with
      | Some _ => Some (without_condition now r s)
      | None => None
      end
  | NextTurn now r =>
      match combatants s with
      | [] => None
      | _ :: _ => Some (advanced now s)
      end
  | RemoveCombatant now _ cid => Some (removed now cid s)
  end.

(** The dictionary a request leaves behind. *)
Definition state_after (q : Request) (σ : gmap string CombatState)
    : gmap string CombatState :=
  match q with
  | CreateCombat uuid now r => <[uuid := new_combat uuid now r]> σ
  | DeleteCombat k => delete k σ
  | _ =>
      match target q with
      | Some k =>
          match σ !! k with
          | Some s =>
              match session_after q s with
              | Some s' => <[k := s']> σ
              | None => σ
              end
          | None => σ
          end
      | None => σ
      end
  end.

(** ** Invariants and sample data *)

(** The order [sort(key=initiative, reverse=True)] establishes. *)
Definition by_initiative_desc (x y : Combatant) : Prop :=
  (initiative y ≤ initiative x)%Z.

(** The ids of a session's combatants were all drawn from [uuid4], are
    pairwise distinct, and the cursor addresses one of them (or is 0 when
    there is none). *)
Definition cursor_inv (h : list string) (s : CombatState) : Prop :=
  c_id <$> combatants s ⊆ h
  ∧ NoDup (c_id <$> combatants s)
  ∧ (0 ≤ current_turn s < Z.max 1 (len (combatants s)))%Z.

(** A short fight used to instantiate the statements on concrete data. *)
Definition skirmish : list Request :=
  [CreateCombat "s1" "t0" (mkCreateCombatRequest "Goblin Ambush");
   AddCombatant "a" "t1" (mkAddCombatantRequest "s1" "Mira" 18 5 20 None "player" None);
   AddCombatant "b" "t2" (mkAddCombatantRequest "s1" "Goblin" 12 7 7 (Some 15%Z) "monster" (Some "goblin"));
   AddCombatant "c" "t3" (mkAddCombatantRequest "s1" "Orin" 18 11 11 None "npc" None);
   NextTurn "t4" (mkNextTurnRequest "s1");
   NextTurn "t5" (mkNextTurnRequest "s1");
   RemoveCombatant "t6" "s1" "b"].

Definition skirmish_session : CombatState :=
  Eval vm_compute in default (new_combat "" "" (mkCreateCombatRequest ""))
                             (serve skirmish ∅ !! "s1").

(** ** Hit points *)

(** The bound the tracker keeps on hit points. *)
Definition hp_in_range (c : Combatant) : Prop :=
  (0 ≤ hp_current c ≤ hp_max c)%Z.

(** Requests whose new combatant already respects the bound. *)
Definition adds_within_bounds (q : Request) : Prop :=
  match q with
  | AddCombatant _ _ r => (0 ≤ acr_hp_current r ≤ acr_hp_max r)%Z
  | _ => True
  end.

(** A combatant entered with more hit points than its maximum. *)
Definition overfull : list Request :=
  [CreateCombat "s1" "t0" (mkCreateCombatRequest "Goblin Ambush");
   AddCombatant "a" "t1" (mkAddCombatantRequest "s1" "Mira" 18 50 20 None "player" None)].

Definition overfull_session : CombatState :=
  Eval vm_compute in default (new_combat "" "" (mkCreateCombatRequest ""))
                             (serve overfull ∅ !! "s1").

Definition overfull_combatant : Combatant :=
  Eval vm_compute in default (new_combatant "" (mkAddCombatantRequest "" "" 0 0 0 None "" None))
                             (head (combatants overfull_session)).

Definition skirmish_combatant : Combatant :=
  Eval vm_compute in default (new_combatant "" (mkAddCombatantRequest "" "" 0 0 0 None "" None))
                             (head (combatants skirmish_session)).

(** ** Initiative order *)

(** The combatants of a session that share the initiative score [i]. *)
Definition tied (i : Z) (l : list Combatant) : list Combatant :=
  filter (λ c, initiative c = i) l.

(** Sorted by initiative, highest first, with every group of equal scores
    in the order in which [uuid4] produced the ids [h]. *)
Definition initiative_inv (h : list string) (s : CombatState) : Prop :=
  StronglySorted by_initiative_desc (combatants s)
  ∧ ∀ i, c_id <$> tied i (combatants s) `sublist_of` h.

(** The opening of [skirmish]: three combatants, nobody has acted yet. *)
Definition muster : list Request := take 4 skirmish.

Definition muster_session : CombatState :=
  Eval vm_compute in default (new_combat "" "" (mkCreateCombatRequest ""))
                             (serve muster ∅ !! "s1").

(** [skirmish] up to the moment the cursor stands on the last combatant. *)
Definition standoff : list Request := take 6 skirmish.

Definition standoff_session : CombatState :=
  Eval vm_compute in default (new_combat "" "" (mkCreateCombatRequest ""))
                             (serve standoff ∅ !! "s1").

(** A combatant entered with a negative maximum. *)
Definition hollow : list Request :=
  [CreateCombat "s1" "t0" (mkCreateCombatRequest "Goblin Ambush");
   AddCombatant "a" "t1" (mkAddCombatantRequest "s1" "Wisp" 9 0 (-5) None "monster" None)].

Definition hollow_session : CombatState :=
  Eval vm_compute in default (new_combat "" "" (mkCreateCombatRequest ""))
                             (serve hollow ∅ !! "s1").

Definition hollow_combatant : Combatant :=
  Eval vm_compute in default (new_combatant "" (mkAddCombatantRequest "" "" 0 0 0 None "" None))
                             (head (combatants hollow_session)).

(** ** Errors *)

(** The transport layer's two error classes. *)
Definition is_not_found {A : Type} (r : Exception + A) : Prop :=
  ∃ detail, r = inl (HTTPException 404 detail).

Definition is_invalid_state {A : Type} (r : Exception + A) : Prop :=
  ∃ detail, r = inl (HTTPException 400 detail).

(** The combatant id a request carries. *)
Definition addressed_combatant (q : Request) : option string :=
  match q with
  | UpdateHP _ r => Some (uhr_combatant_id r)
  | AddCondition _ r => Some (adr_combatant_id r)
  | RemoveCondition _ r => Some (rcr_combatant_id r)
  | RemoveCombatant _ _ cid => Some cid
  | _ => None
  end.

(** The combatant id a handler looks up with [next(...)]; [remove_combatant]
    filters the sequence instead. *)
Definition looked_up_combatant (q : Request) : option string :=
  match q with
  | UpdateHP _ r => Some (uhr_combatant_id r)
  | AddCondition _ r => Some (adr_combatant_id r)
  | RemoveCondition _ r => Some (rcr_combatant_id r)
  | _ => None
  end.

(** The session a request refers to exists, and so does the combatant that
    [combatant_of] picks from the request, if any. *)
Definition referents_exist (combatant_of : Request → option string)
    (q : Request) (σ : gmap string CombatState) : Prop :=
  match target q with
  | None => True
  | Some k =>
      ∃ s, σ !! k = Some s
        ∧ match combatant_of q with
          | None => True
          | Some cid => is_Some (find_combatant cid (combatants s))
          end
  end.

(** The exception a request raises, if any. *)
Definition failure (q : Request) (σ : gmap string CombatState) : option Exception :=
  match target q with
  | None => None
  | Some k =>
      match σ !! k with
      | None => Some not_found_combat
      | Some s =>
          match looked_up_combatant q with
          | Some cid =>
              match find_combatant cid (combatants s) with
              | Some _ => None
              | None => Some not_found_combatant
              end
          | None =>
              match q, combatants s with
              | NextTurn _ _, [] => Some no_combatants
              | _, _ => None
              end
          end
      end
  end.

(** ** Listing the sessions *)

(** [active_combats.values()]. A dict hands out its values in its own key
    order (the order of insertion in CPython), which the map does not
    record; [order] stands for that enumeration of the keys. *)
Definition values (order : list string) : Handler (list CombatState) :=
  λ σ, (σ, inr (omap (λ k, σ !! k) order)).

(** [order] lists the keys of the dict, each of them once. *)
Definition key_order (order : list string) (σ : gmap string CombatState) : Prop :=
  NoDup order ∧ ∀ k, k ∈ order ↔ is_Some (σ !! k).

Definition list_combats (order : list string) : Handler (list CombatState) :=
  l ← values order;
  mret l.

(** ** Who owns a combatant *)

(** The ids drawn by the [add_combatant] requests of a trace that address
    session [k]. *)
Definition adds_to (k : string) (qs : list Request) : list string :=
  qs ≫= λ q, match q with
             | AddCombatant uuid _ r =>
                 if decide (acr_combat_id r = k) then [uuid] else []
             | _ => []
             end.

(** ** The key a response belongs to *)

(** The key under which the session returned by a request is stored: the id
    drawn by [create_combat], the addressed session otherwise. *)
Definition response_key (q : Request) : option string :=
  match q with
  | CreateCombat uuid _ _ => Some uuid
  | _ => target q
  end.

(** [skirmish] followed by two conditions on the first combatant. *)
Definition afflicted : list Request :=
  skirmish ++ [AddCondition "t7" (mkAddConditionRequest "s1" "a" "Prone");
               AddCondition "t8" (mkAddConditionRequest "s1" "a" "Stunned")].

Definition afflicted_session : CombatState :=
  Eval vm_compute in default (new_combat "" "" (mkCreateCombatRequest ""))
                             (serve afflicted ∅ !! "s1").

Definition afflicted_combatant : Combatant :=
  Eval vm_compute in default (new_combatant "" (mkAddCombatantRequest "" "" 0 0 0 None "" None))
                             (head (combatants afflicted_session)).

(** ** Closed forms of the handlers

    Each handler, run on a dictionary in which the session is present,
    replaces the stored session by a pure function of the old one. *)

Lemma alter_found (σ : gmap string CombatState) k s f :
  σ !! k = Some s → alter f k σ = <[k := f s]> σ.
Proof.
  intros H. apply map_eq. intros i. destruct (decide (k = i)) as [->|].
  - by rewrite lookup_alter_eq, lookup_insert_eq, H.
  - by rewrite lookup_alter_ne, lookup_insert_ne.
Qed.

Ltac unfold_handler :=
  cbv beta iota delta [mbind mret Handler_bind Handler_ret contains getitem
    setattr setattr_combatant raise setitem delitem respond].

Ltac run_handler H :=
  unfold_handler;
  repeat first [rewrite H | rewrite alter_alter_eq | rewrite lookup_alter_eq
               | progress cbn].

Lemma alter_combatant_twice f g cid l :
  (∀ c, c_id (f c) = c_id c) →
  alter_combatant g cid (alter_combatant f cid l) = alter_combatant (g ∘ f) cid l.
Proof.
  intros Hid. induction l as [|c l IH]; cbn; [done|].
  destruct (String.eqb (c_id c) cid) eqn:E; cbn.
  - by rewrite Hid, E.
  - by rewrite E, IH.
Qed.

Lemma alter_combatant_ext f g cid l :
  (∀ c, find_combatant cid l = Some c → f c = g c) →
  alter_combatant f cid l = alter_combatant g cid l.
Proof.
  induction l as [|c l IH]; cbn; [done|]. intros H.
  destruct (String.eqb (c_id c) cid); [by rewrite H | by rewrite IH].
Qed.

Lemma create_combat_run uuid now request σ :
  create_combat uuid now request σ
  = (<[uuid := new_combat uuid now request]> σ, inr (new_combat uuid now request)).
Proof. done. Qed.

Lemma get_combat_found k σ s :
  σ !! k = Some s → get_combat k σ = (σ, inr s).
Proof. intros H. unfold get_combat. by run_handler H. Qed.

Lemma get_combat_missing k σ :
  σ !! k = None → get_combat k σ = (σ, inl not_found_combat).
Proof. intros H. unfold get_combat. by run_handler H. Qed.

Lemma add_combatant_found uuid now request σ s :
  σ !! acr_combat_id request = Some s →
  add_combatant uuid now request σ
  = (<[acr_combat_id request := with_combatant uuid now request s]> σ,
     inr (with_combatant uuid now request s)).
Proof.
  intros H. unfold add_combatant. run_handler H.
  by rewrite (alter_found _ _ _ _ H).
Qed.

Lemma add_combatant_missing uuid now request σ :
  σ !! acr_combat_id request = None →
  add_combatant uuid now request σ = (σ, inl not_found_combat).
Proof. intros H. unfold add_combatant. by run_handler H. Qed.

Lemma update_hp_found now request σ s c :
  σ !! uhr_combat_id request = Some s →
  find_combatant (uhr_combatant_id request) (combatants s) = Some c →
  update_hp now request σ
  = (<[uhr_combat_id request := with_hp now request s]> σ,
     inr (with_hp now request s)).
Proof.
  intros H Hc. unfold update_hp. run_handler H. rewrite Hc. run_handler H.
  rewrite (alter_found _ _ _ _ H). cbn.
  by rewrite alter_combatant_twice.
Qed.

Lemma update_hp_missing now request σ :
  σ !! uhr_combat_id request = None →
  update_hp now request σ = (σ, inl not_found_combat).
Proof. intros H. unfold update_hp. by run_handler H. Qed.

Lemma update_hp_no_combatant now request σ s :
  σ !! uhr_combat_id request = Some s →
  find_combatant (uhr_combatant_id request) (combatants s) = None →
  update_hp now request σ = (σ, inl not_found_combatant).
Proof. intros H Hc. unfold update_hp. run_handler H. by rewrite Hc. Qed.

Lemma add_condition_found now request σ s c :
  σ !! adr_combat_id request = Some s →
  find_combatant (adr_combatant_id request) (combatants s) = Some c →
  add_condition now request σ
  = (<[adr_combat_id request := with_condition now request s]> σ,
     inr (with_condition now request s)).
Proof.
  intros H Hc. unfold add_condition. run_handler H. rewrite Hc.
  assert (alter_combatant (put_condition (adr_condition request))
            (adr_combatant_id request) (combatants s)
          = if str_in (adr_condition request) (conditions c) then combatants s
            else alter_combatant
                   (λ c, set_conditions (conditions c ++ [adr_condition request]) c)
                   (adr_combatant_id request) (combatants s)) as Hput.
  { clear H. induction (combatants s) as [|d l IH]; [done|]. cbn in Hc |- *.
    destruct (String.eqb (c_id d) (adr_combatant_id request)) eqn:E.
    - injection Hc as ->. unfold put_condition.
      destruct (str_in _ _); [by destruct c | done].
    - rewrite (IH Hc).
      by destruct (str_in _ _). }
  unfold with_condition. rewrite Hput.
  destruct (str_in (adr_condition request) (conditions c)); run_handler H;
    rewrite (alter_found _ _ _ _ H); done.
Qed.

Lemma add_condition_missing now request σ :
  σ !! adr_combat_id request = None →
  add_condition now request σ = (σ, inl not_found_combat).
Proof. intros H. unfold add_condition. by run_handler H. Qed.

Lemma add_condition_no_combatant now request σ s :
  σ !! adr_combat_id request = Some s →
  find_combatant (adr_combatant_id request) (combatants s) = None →
  add_condition now request σ = (σ, inl not_found_combatant).
Proof. intros H Hc. unfold add_condition. run_handler H. by rewrite Hc. Qed.

Lemma remove_condition_found now request σ s c :
  σ !! rcr_combat_id request = Some s →
  find_combatant (rcr_combatant_id request) (combatants s) = Some c →
  remove_condition now request σ
  = (<[rcr_combat_id request := without_condition now request s]> σ,
     inr (without_condition now request s)).
Proof.
  intros H Hc. unfold remove_condition. run_handler H. rewrite Hc.
  assert (alter_combatant (drop_condition (rcr_condition request))
            (rcr_combatant_id request) (combatants s)
          = if str_in (rcr_condition request) (conditions c)
            then alter_combatant
                   (λ c, set_conditions
                           (list_remove_first (rcr_condition request) (conditions c)) c)
                   (rcr_combatant_id request) (combatants s)
            else combatants s) as Hdrop.
  { clear H. induction (combatants s) as [|d l IH]; [done|]. cbn in Hc |- *.
    destruct (String.eqb (c_id d) (rcr_combatant_id request)) eqn:E.
    - injection Hc as ->. unfold drop_condition.
      destruct (str_in _ _); [done | by destruct c].
    - rewrite (IH Hc).
      by destruct (str_in _ _). }
  unfold without_condition. rewrite Hdrop.
  destruct (str_in (rcr_condition request) (conditions c)); run_handler H;
    rewrite (alter_found _ _ _ _ H); done.
Qed.

Lemma remove_condition_missing now request σ :
  σ !! rcr_combat_id request = None →
  remove_condition now request σ = (σ, inl not_found_combat).
Proof. intros H. unfold remove_condition. by run_handler H. Qed.

Lemma remove_condition_no_combatant now request σ s :
  σ !! rcr_combat_id request = Some s →
  find_combatant (rcr_combatant_id request) (combatants s) = None →
  remove_condition now request σ = (σ, inl not_found_combatant).
Proof. intros H Hc. unfold remove_condition. run_handler H. by rewrite Hc. Qed.

Lemma next_turn_found now request σ s :
  σ !! ntr_combat_id request = Some s →
  combatants s ≠ [] →
  next_turn now request σ
  = (<[ntr_combat_id request := advanced now s]> σ, inr (advanced now s)).
Proof.
  intros H Hne. unfold next_turn. run_handler H.
  destruct (combatants s) as [|c l] eqn:El; [done|]. run_handler H.
  unfold advanced. rewrite El.
  destruct (len (c :: l) <=? current_turn s + 1)%Z; run_handler H;
    by rewrite (alter_found _ _ _ _ H).
Qed.

Lemma next_turn_missing now request σ :
  σ !! ntr_combat_id request = None →
  next_turn now request σ = (σ, inl not_found_combat).
Proof. intros H. unfold next_turn. by run_handler H. Qed.

Lemma next_turn_empty now request σ s :
  σ !! ntr_combat_id request = Some s →
  combatants s = [] →
  next_turn now request σ = (σ, inl no_combatants).
Proof. intros H He. unfold next_turn. run_handler H. by rewrite He. Qed.

Lemma remove_combatant_found now k cid σ s :
  σ !! k = Some s →
  remove_combatant now k cid σ
  = (<[k := removed now cid s]> σ, inr (removed now cid s)).
Proof.
  intros H. unfold remove_combatant. run_handler H. unfold removed.
  destruct ((len (without_combatant cid (combatants s)) <=? current_turn s)%Z
            && match without_combatant cid (combatants s) with
               | [] => false | _ :: _ => true end);
    run_handler H; by rewrite (alter_found _ _ _ _ H).
Qed.

Lemma remove_combatant_missing now k cid σ :
  σ !! k = None →
  remove_combatant now k cid σ = (σ, inl not_found_combat).
Proof. intros H. unfold remove_combatant. by run_handler H. Qed.

Lemma delete_combat_found k σ s :
  σ !! k = Some s →
  delete_combat k σ = (delete k σ, inr "Combat deleted successfully").
Proof. intros H. unfold delete_combat. by run_handler H. Qed.

Lemma delete_combat_missing k σ :
  σ !! k = None →
  delete_combat k σ = (σ, inl not_found_combat).
Proof. intros H. unfold delete_combat. by run_handler H. Qed.

Lemma respond_fst {A} (f : A → Response) (h : Handler A) σ :
  (respond f h σ).1 = (h σ).1.
Proof. unfold respond. unfold_handler. by destruct (h σ) as [σ' [e|a]]. Qed.

Lemma dispatch_state q σ : (dispatch q σ).1 = state_after q σ.
Proof.
  destruct q as [u n r|k|u n r|n r|n r|n r|n r|n k cid|k];
    cbn [dispatch]; rewrite respond_fst; cbn [state_after target session_after].
  - done.
  - destruct (σ !! k) as [s|] eqn:H;
      [by rewrite (get_combat_found _ _ _ H) | by rewrite (get_combat_missing _ _ H)].
  - destruct (σ !! acr_combat_id r) as [s|] eqn:H;
      [by rewrite (add_combatant_found _ _ _ _ _ H)
      | by rewrite (add_combatant_missing _ _ _ _ H)].
  - destruct (σ !! uhr_combat_id r) as [s|] eqn:H;
      [|by rewrite (update_hp_missing _ _ _ H)].
    destruct (find_combatant _ _) as [c|] eqn:Hc;
      [by rewrite (update_hp_found _ _ _ _ _ H Hc)
      | by rewrite (update_hp_no_combatant _ _ _ _ H Hc)].
  - destruct (σ !! adr_combat_id r) as [s|] eqn:H;
      [|by rewrite (add_condition_missing _ _ _ H)].
    destruct (find_combatant _ _) as [c|] eqn:Hc;
      [by rewrite (add_condition_found _ _ _ _ _ H Hc)
      | by rewrite (add_condition_no_combatant _ _ _ _ H Hc)].
  - destruct (σ !! rcr_combat_id r) as [s|] eqn:H;
      [|by rewrite (remove_condition_missing _ _ _ H)].
    destruct (find_combatant _ _) as [c|] eqn:Hc;
      [by rewrite (remove_condition_found _ _ _ _ _ H Hc)
      | by rewrite (remove_condition_no_combatant _ _ _ _ H Hc)].
  - destruct (σ !! ntr_combat_id r) as [s|] eqn:H;
      [|by rewrite (next_turn_missing _ _ _ H)].
    destruct (combatants s) as [|c l] eqn:El;
      [by rewrite (next_turn_empty _ _ _ _ H El)|].
    rewrite (next_turn_found _ _ _ _ H); [done | by rewrite El].
  - destruct (σ !! k) as [s|] eqn:H;
      [by rewrite (remove_combatant_found _ _ _ _ _ H)
      | by rewrite (remove_combatant_missing _ _ _ _ H)].
  - destruct (σ !! k) as [s|] eqn:H;
      [by rewrite (delete_combat_found _ _ _ H)|].
    rewrite (delete_combat_missing _ _ H). cbn. symmetry. by apply delete_id.
Qed.

Lemma serve_snoc qs q σ : serve (qs ++ [q]) σ = state_after q (serve qs σ).
Proof. unfold serve. by rewrite foldl_app, <- dispatch_state. Qed.

Lemma uuids_snoc qs q : uuids (qs ++ [q]) = (uuids qs ++ uuids [q])%list.
Proof. unfold uuids. by rewrite bind_app. Qed.

(** A session found after a request is a new one, the rewritten target, or
    a session the request did not touch. *)
Lemma state_after_lookup q σ k s' :
  state_after q σ !! k = Some s' →
  (∃ uuid now r, q = CreateCombat uuid now r ∧ k = uuid ∧ s' = new_combat uuid now r)
  ∨ (∃ s, σ !! k = Some s ∧ target q = Some k ∧ session_after q s = Some s')
  ∨ σ !! k = Some s'.
Proof.
  intros H.
  assert (∀ k0, target q = Some k0 →
    match σ !! k0 with
    | Some s => match session_after q s with
                | Some s'' => <[k0 := s'']> σ | None => σ end
    | None => σ end !! k = Some s' →
    (∃ s, σ !! k = Some s ∧ target q = Some k ∧ session_after q s = Some s')
    ∨ σ !! k = Some s') as Hgen.
  { intros k0 Ht Hl. destruct (σ !! k0) as [s|] eqn:Hs; [|by right].
    destruct (session_after q s) as [s''|] eqn:Ha; [|by right].
    destruct (decide (k0 = k)) as [->|Hne].
    - rewrite lookup_insert_eq in Hl. injection Hl as ->. left. eauto.
    - rewrite lookup_insert_ne in Hl by done. by right. }
  destruct q as [u n r|k0|u n r|n r|n r|n r|n r|n k0 cid|k0];
    cbn [state_after] in H; try (right; by eapply Hgen).
  - destruct (decide (u = k)) as [->|Hne].
    + rewrite lookup_insert_eq in H. injection H as <-. left. eauto 10.
    + rewrite lookup_insert_ne in H by done. by right; right.
  - right; right. apply lookup_delete_Some in H. tauto.
Qed.

(** ** Facts about the list operations *)

Lemma insert_by_initiative_perm x l : insert_by_initiative x l ≡ₚ x :: l.
Proof.
  induction l as [|y l IH]; cbn; [done|].
  destruct (initiative y <=? initiative x)%Z; [done|].
  by rewrite IH, Permutation_swap.
Qed.

Lemma sort_by_initiative_desc_perm l : sort_by_initiative_desc l ≡ₚ l.
Proof.
  induction l as [|x l IH]; cbn; [done|].
  by rewrite insert_by_initiative_perm, IH.
Qed.

Lemma sort_by_initiative_desc_length l :
  length (sort_by_initiative_desc l) = length l.
Proof. by rewrite sort_by_initiative_desc_perm. Qed.

Lemma insert_by_initiative_sorted x l :
  StronglySorted by_initiative_desc l →
  StronglySorted by_initiative_desc (insert_by_initiative x l).
Proof.
  induction 1 as [|y l Hs IH Hall]; cbn; [by repeat constructor|].
  destruct (initiative y <=? initiative x)%Z eqn:E.
  - apply Z.leb_le in E. constructor; [by constructor|].
    constructor; [done|]. eapply Forall_impl; [exact Hall|].
    unfold by_initiative_desc. intros z Hz. lia.
  - apply Z.leb_gt in E. constructor; [done|].
    rewrite insert_by_initiative_perm. constructor; [|done].
    unfold by_initiative_desc. lia.
Qed.

Lemma sort_by_initiative_desc_sorted l :
  StronglySorted by_initiative_desc (sort_by_initiative_desc l).
Proof.
  induction l as [|x l IH]; cbn; [constructor|].
  by apply insert_by_initiative_sorted.
Qed.

(** Stability: among the combatants of any one initiative score, sorting
    changes nothing. *)
Lemma insert_by_initiative_stable (k : Z) x l :
  filter (λ c, initiative c = k) (insert_by_initiative x l)
  = filter (λ c, initiative c = k) (x :: l).
Proof.
  induction l as [|y l IH]; cbn [insert_by_initiative]; [done|].
  destruct (initiative y <=? initiative x)%Z eqn:E; [done|].
  apply Z.leb_gt in E.
  rewrite (filter_cons _ y), IH, !(filter_cons _ x), !(filter_cons _ y).
  repeat case_decide; (done || lia).
Qed.

Lemma sort_by_initiative_desc_stable (k : Z) l :
  filter (λ c, initiative c = k) (sort_by_initiative_desc l)
  = filter (λ c, initiative c = k) l.
Proof.
  induction l as [|x l IH]; [done|].
  change (sort_by_initiative_desc (x :: l))
    with (insert_by_initiative x (sort_by_initiative_desc l)).
  by rewrite insert_by_initiative_stable, !filter_cons, IH.
Qed.

(** The sorted, stable arrangement of a list is unique, so every stable
    descending sort, Python's included, returns what
    [sort_by_initiative_desc] returns. *)
Lemma stable_sorted_unique l1 : ∀ l2,
  StronglySorted by_initiative_desc l1 →
  StronglySorted by_initiative_desc l2 →
  (∀ i, filter (λ c, initiative c = i) l1 = filter (λ c, initiative c = i) l2) →
  l1 = l2.
Proof.
  induction l1 as [|x l1 IH]; intros l2 Hs1 Hs2 Htied.
  - destruct l2 as [|y l2]; [done|].
    specialize (Htied (initiative y)). by rewrite filter_cons_True in Htied.
  - destruct l2 as [|y l2].
    { specialize (Htied (initiative x)). by rewrite filter_cons_True in Htied. }
    apply StronglySorted_cons in Hs1 as [Hx Hs1].
    apply StronglySorted_cons in Hs2 as [Hy Hs2].
    assert (initiative x = initiative y) as Hxy.
    { apply Z.le_antisymm.
      - assert (x ∈ y :: l2) as Hin.
        { eapply (list_elem_of_filter (λ c, initiative c = initiative x)).
          rewrite <- Htied, filter_cons_True by done. left. }
        apply elem_of_cons in Hin as [->|Hin]; [done|].
        rewrite Forall_forall in Hy. by apply Hy.
      - assert (y ∈ x :: l1) as Hin.
        { eapply (list_elem_of_filter (λ c, initiative c = initiative y)).
          rewrite Htied, filter_cons_True by done. left. }
        apply elem_of_cons in Hin as [->|Hin]; [done|].
        rewrite Forall_forall in Hx. by apply Hx. }
    assert (x = y) as ->.
    { specialize (Htied (initiative x)).
      rewrite filter_cons_True, (filter_cons_True _ y) in Htied by done.
      by injection Htied. }
    f_equal. apply IH; [done..|]. intros i. specialize (Htied i).
    rewrite !(filter_cons _ y) in Htied. case_decide; [by injection Htied | done].
Qed.

Lemma sort_by_initiative_desc_unique l l' :
  StronglySorted by_initiative_desc l' →
  (∀ i, filter (λ c, initiative c = i) l' = filter (λ c, initiative c = i) l) →
  l' = sort_by_initiative_desc l.
Proof.
  intros Hs Htied. apply stable_sorted_unique;
    [done | apply sort_by_initiative_desc_sorted |].
  intros i. by rewrite sort_by_initiative_desc_stable.
Qed.

Lemma alter_combatant_length f cid l :
  length (alter_combatant f cid l) = length l.
Proof.
  induction l as [|c l IH]; cbn; [done|].
  destruct (String.eqb (c_id c) cid); cbn; by rewrite ?IH.
Qed.

Lemma alter_combatant_fmap {B} (g : Combatant → B) f cid l :
  (∀ c, g (f c) = g c) →
  g <$> alter_combatant f cid l = g <$> l.
Proof.
  intros Hg. induction l as [|c l IH]; cbn; [done|].
  destruct (String.eqb (c_id c) cid); cbn; by rewrite ?Hg, ?IH.
Qed.

Lemma find_combatant_Some cid l c :
  find_combatant cid l = Some c → c ∈ l ∧ c_id c = cid.
Proof.
  induction l as [|d l IH]; cbn; [done|].
  destruct (String.eqb (c_id d) cid) eqn:E.
  - intros [= ->]. apply String.eqb_eq in E. split; [left | done].
  - intros H. destruct (IH H). split; [by right | done].
Qed.

Lemma find_combatant_None cid l :
  find_combatant cid l = None ↔ cid ∉ c_id <$> l.
Proof.
  induction l as [|d l IH]; cbn.
  - split; [intros _; apply not_elem_of_nil | done].
  - rewrite not_elem_of_cons. destruct (String.eqb (c_id d) cid) eqn:E.
    + apply String.eqb_eq in E. split; [done | intros [? _]; congruence].
    + apply String.eqb_neq in E. rewrite IH. split; [intros; split; congruence | tauto].
Qed.

Lemma without_combatant_absent cid l :
  cid ∉ c_id <$> l → without_combatant cid l = l.
Proof.
  unfold without_combatant. induction l as [|c l IH]; [done|].
  rewrite fmap_cons, not_elem_of_cons. intros [Hne Hl].
  rewrite filter_cons_True by congruence. by rewrite IH.
Qed.

Lemma without_combatant_sublist cid l : without_combatant cid l `sublist_of` l.
Proof. apply sublist_filter. Qed.

(** With distinct ids a removal takes out at most one combatant. *)
Lemma without_combatant_length cid l :
  NoDup (c_id <$> l) →
  (length l ≤ S (length (without_combatant cid l)))%nat.
Proof.
  unfold without_combatant. induction l as [|c l IH]; [cbn; lia|].
  rewrite fmap_cons, NoDup_cons. intros [Hc Hl].
  destruct (decide (c_id c = cid)) as [<-|Hne].
  - rewrite filter_cons_False by tauto.
    fold (without_combatant (c_id c) l). rewrite without_combatant_absent by done.
    cbn [length]. lia.
  - rewrite filter_cons_True by done. cbn [length]. specialize (IH Hl). lia.
Qed.

(** ** Induction along a trace *)

Section TraceInvariant.
(** [ok] restricts the requests of the trace; [I h s] relates a session to
    the uuids drawn so far. *)
Variable ok : Request → Prop.
Variable I : list string → CombatState → Prop.

Hypothesis I_mono : ∀ h h' s, I h s → I (h ++ h')%list s.
Hypothesis I_new : ∀ h uuid now r,
  ok (CreateCombat uuid now r) → I (h ++ [uuid])%list (new_combat uuid now r).
Hypothesis I_step : ∀ h q s s',
  ok q → I h s → (∀ u, u ∈ uuids [q] → u ∉ h) →
  session_after q s = Some s' → I (h ++ uuids [q])%list s'.

Lemma trace_invariant qs :
  NoDup (uuids qs) → Forall ok qs →
  ∀ k s, serve qs ∅ !! k = Some s → I (uuids qs) s.
Proof.
  induction qs as [|q qs IH] using rev_ind; intros Hnd Hok k s Hk.
  - change (serve [] ∅) with (∅ : gmap string CombatState) in Hk.
    by rewrite lookup_empty in Hk.
  - rewrite serve_snoc in Hk. rewrite uuids_snoc in Hnd |- *.
    apply NoDup_app in Hnd as (Hnd & Hfresh & _).
    apply Forall_app in Hok as [Hok Hq]. rewrite Forall_singleton in Hq.
    specialize (IH Hnd Hok).
    apply state_after_lookup in Hk
      as [(u & n & r & -> & -> & ->)|[(s0 & Hs0 & _ & Hafter)|Hsame]].
    + by apply I_new.
    + eapply I_step; eauto. intros u Hu Hin. by eapply Hfresh.
    + apply I_mono. eauto.
Qed.
End TraceInvariant.

(** ** The turn cursor stays inside the initiative order *)

Lemma cursor_inv_step h q s s' :
  cursor_inv h s → (∀ u, u ∈ uuids [q] → u ∉ h) →
  session_after q s = Some s' → cursor_inv (h ++ uuids [q])%list s'.
Proof.
  intros (Hsub & Hnd & Hturn) Hfresh Hafter.
  destruct q as [u n r|k|u n r|n r|n r|n r|n r|n k cid|k]; cbn in Hafter;
    try discriminate.
  - (* add_combatant *)
    injection Hafter as <-. unfold cursor_inv, len in *. cbn.
    rewrite sort_by_initiative_desc_length, sort_by_initiative_desc_perm.
    rewrite fmap_app, length_app. cbn.
    assert (u ∉ h) as Hu by (apply Hfresh; cbn; left).
    split; [|split].
    + intros x Hx. apply elem_of_app in Hx as [Hx|Hx]; apply elem_of_app; auto.
    + apply NoDup_app. split; [done | split; [| apply NoDup_singleton]].
      intros x Hx Hx'. apply list_elem_of_singleton in Hx' as ->. auto.
    + lia.
  - (* update_hp *)
    destruct (find_combatant _ _); [|discriminate]. injection Hafter as <-.
    unfold cursor_inv, len in *. cbn.
    rewrite alter_combatant_length, alter_combatant_fmap by done.
    rewrite app_nil_r. done.
  - (* add_condition *)
    destruct (find_combatant _ _); [|discriminate]. injection Hafter as <-.
    unfold cursor_inv, len in *. cbn.
    rewrite alter_combatant_length, alter_combatant_fmap, app_nil_r; [done|].
    intros d. unfold put_condition. by destruct (str_in _ _).
  - (* remove_condition *)
    destruct (find_combatant _ _); [|discriminate]. injection Hafter as <-.
    unfold cursor_inv, len in *. cbn.
    rewrite alter_combatant_length, alter_combatant_fmap, app_nil_r; [done|].
    intros d. unfold drop_condition. by destruct (str_in _ _).
  - (* next_turn *)
    destruct (combatants s) as [|c l] eqn:El; [discriminate|].
    injection Hafter as <-. unfold cursor_inv, advanced, len in *.
    rewrite El in *. rewrite app_nil_r.
    destruct (_ <=? _)%Z eqn:E; cbn; rewrite El;
      [apply Z.leb_le in E | apply Z.leb_gt in E]; cbn [length] in *;
      (split; [done | split; [done | lia]]).
  - (* remove_combatant *)
    injection Hafter as <-. unfold cursor_inv, removed, len in *.
    rewrite app_nil_r.
    pose proof (without_combatant_sublist cid (combatants s)) as Hsl.
    pose proof (without_combatant_length cid (combatants s) Hnd) as Hlen.
    assert (c_id <$> without_combatant cid (combatants s) ⊆ h
            ∧ NoDup (c_id <$> without_combatant cid (combatants s))) as [? ?].
    { split.
      - intros x Hx. apply Hsub. eapply sublist_subseteq; [|exact Hx].
        by apply fmap_sublist.
      - eapply sublist_NoDup; [exact Hnd|]. by apply fmap_sublist. }
    destruct (without_combatant cid (combatants s)) as [|c l] eqn:El.
    + rewrite andb_false_r. cbn in *. split; [done | split; [done | lia]].
    + rewrite andb_true_r.
      destruct (_ <=? _)%Z eqn:E; cbn;
        [apply Z.leb_le in E | apply Z.leb_gt in E]; cbn [length] in *;
        (split; [done | split; [done | lia]]).
Qed.

(** C1. In every state the process can reach, every session's turn cursor
    satisfies [0 <= current_turn < max 1 (len combatants)]; in particular
    the cursor is 0 whenever the session has no combatants. *)
Theorem C1_cursor_in_range σ k s :
  reachable σ → σ !! k = Some s →
  (0 ≤ current_turn s < Z.max 1 (len (combatants s)))%Z
  ∧ (combatants s = [] → current_turn s = 0%Z).
Proof.
  intros (qs & Hnd & _ & ->) Hk.
  assert (cursor_inv (uuids qs) s) as (_ & _ & Hturn).
  { eapply (trace_invariant (λ _, True) cursor_inv); eauto.
    - intros h h' s0 (Hsub & ? & ?). split; [|done].
      intros x Hx. apply elem_of_app. auto.
    - intros h u n r _. unfold cursor_inv, len. cbn.
      split; [apply list_subseteq_nil | split; [constructor | lia]].
    - intros h q s0 s' _. apply cursor_inv_step.
    - by apply Forall_true. }
  split; [done|]. intros He. rewrite He in Hturn. unfold len in Hturn. cbn in Hturn. lia.
Qed.

Lemma skirmish_reachable : reachable (serve skirmish ∅).
Proof.
  exists skirmish. split; [|split; [|reflexivity]].
  - apply (bool_decide_unpack _). vm_compute. reflexivity.
  - by apply Forall_true.
Defined.

Lemma C1_cursor_in_range_witness :
  reachable (serve skirmish ∅)
  ∧ serve skirmish ∅ !! "s1" = Some skirmish_session
  ∧ (0 ≤ current_turn skirmish_session
       < Z.max 1 (len (combatants skirmish_session)))%Z
  ∧ (combatants skirmish_session = [] → current_turn skirmish_session = 0%Z).
Proof.
  assert (serve skirmish ∅ !! "s1" = Some skirmish_session) as Hs
    by (vm_compute; reflexivity).
  split; [exact skirmish_reachable|]. split; [exact Hs|].
  exact (C1_cursor_in_range _ _ _ skirmish_reachable Hs).
Defined.


(** ** Hit points stay within bounds *)

Lemma clamp_hp_in_range delta c :
  (0 ≤ hp_max c)%Z → hp_in_range (clamp_hp delta c).
Proof. unfold hp_in_range, clamp_hp. cbn. lia. Qed.

Lemma Forall_alter_combatant (P : Combatant → Prop) f cid l :
  (∀ c, P c → P (f c)) → Forall P l → Forall P (alter_combatant f cid l).
Proof.
  intros Hf. induction 1 as [|c l Hc Hl IH]; cbn; [constructor|].
  destruct (String.eqb (c_id c) cid); constructor; auto.
Qed.

Lemma hp_in_range_step q s s' :
  adds_within_bounds q → Forall hp_in_range (combatants s) →
  session_after q s = Some s' → Forall hp_in_range (combatants s').
Proof.
  intros Hq Hs Hafter.
  destruct q as [u n r|k|u n r|n r|n r|n r|n r|n k cid|k]; cbn in Hafter;
    try discriminate.
  - injection Hafter as <-. cbn. rewrite sort_by_initiative_desc_perm.
    apply Forall_app. split; [done|]. by apply Forall_singleton.
  - destruct (find_combatant _ _); [|discriminate]. injection Hafter as <-. cbn.
    apply Forall_alter_combatant; [|done].
    intros d Hd. apply clamp_hp_in_range. unfold hp_in_range in Hd. lia.
  - destruct (find_combatant _ _); [|discriminate]. injection Hafter as <-. cbn.
    apply Forall_alter_combatant; [|done].
    intros d Hd. unfold put_condition. by destruct (str_in _ _).
  - destruct (find_combatant _ _); [|discriminate]. injection Hafter as <-. cbn.
    apply Forall_alter_combatant; [|done].
    intros d Hd. unfold drop_condition. by destruct (str_in _ _).
  - destruct (combatants s) as [|c l] eqn:El; [discriminate|].
    injection Hafter as <-. unfold advanced.
    destruct (_ <=? _)%Z; cbn; by rewrite El in *.
  - injection Hafter as <-. unfold removed.
    assert (Forall hp_in_range (without_combatant cid (combatants s))) as Hw.
    { rewrite Forall_forall in Hs |- *. intros x Hx. apply Hs.
      by eapply sublist_subseteq; [apply without_combatant_sublist|]. }
    by destruct (_ && _).
Qed.

(** C2, as the claim states it, fails: [add_combatant] stores the requested
    [hp_current] without clamping, so a reachable session can hold a
    combatant with 50 hit points out of 20. *)
Lemma C2_add_combatant_does_not_clamp :
  ¬ (∀ σ k s c, reachable σ → σ !! k = Some s → c ∈ combatants s →
       (0 ≤ hp_current c ≤ hp_max c)%Z).
Proof.
  intros H.
  assert (reachable (serve overfull ∅)) as Hr.
  { exists overfull. split; [|split; [by apply Forall_true | reflexivity]].
    apply (bool_decide_unpack _). vm_compute. reflexivity. }
  assert (serve overfull ∅ !! "s1" = Some overfull_session) as Hs
    by (vm_compute; reflexivity).
  assert (overfull_combatant ∈ combatants overfull_session) as Hc by (cbn; left).
  specialize (H _ _ _ _ Hr Hs Hc). cbn in H. lia.
Qed.

(** C2, amended. [add_combatant] stores the requested [hp_current] as it is;
    [update_hp] never rejects a change and clamps the sum into [0, hp_max]
    whenever [hp_max] is not negative. Hence [0 <= hp_current <= hp_max]
    holds for every combatant of every session in every state reached by
    requests whose added combatants satisfied it. *)
Theorem C2_hp_within_bounds σ k s c :
  reachable_by adds_within_bounds σ → σ !! k = Some s → c ∈ combatants s →
  (0 ≤ hp_current c ≤ hp_max c)%Z.
Proof.
  intros (qs & Hnd & Hok & ->) Hk Hc.
  assert (Forall hp_in_range (combatants s)) as Hall.
  { apply (trace_invariant adds_within_bounds
             (λ _ s, Forall hp_in_range (combatants s))) with qs k;
      [done | by constructor | | done..].
    intros h q s0 s' Hq Hs0 _. by apply hp_in_range_step. }
  rewrite Forall_forall in Hall. by apply Hall.
Qed.

Lemma skirmish_within_bounds : reachable_by adds_within_bounds (serve skirmish ∅).
Proof.
  exists skirmish. split; [|split; [|reflexivity]].
  - apply (bool_decide_unpack _). vm_compute. reflexivity.
  - repeat constructor; cbn; lia.
Defined.

Lemma C2_hp_within_bounds_witness :
  reachable_by adds_within_bounds (serve skirmish ∅)
  ∧ serve skirmish ∅ !! "s1" = Some skirmish_session
  ∧ skirmish_combatant ∈ combatants skirmish_session
  ∧ (0 ≤ hp_current skirmish_combatant ≤ hp_max skirmish_combatant)%Z.
Proof.
  assert (serve skirmish ∅ !! "s1" = Some skirmish_session) as Hs
    by (vm_compute; reflexivity).
  assert (skirmish_combatant ∈ combatants skirmish_session) as Hc
    by (cbn; left).
  split; [exact skirmish_within_bounds|]. split; [exact Hs|]. split; [exact Hc|].
  exact (C2_hp_within_bounds _ _ _ _ skirmish_within_bounds Hs Hc).
Defined.

(** ** Initiative order after an insertion *)

Lemma sorted_by_keys l :
  StronglySorted by_initiative_desc l
  ↔ StronglySorted (flip Z.le) (initiative <$> l).
Proof.
  induction l as [|x l IH]; [split; constructor|].
  rewrite fmap_cons, !StronglySorted_cons, IH, Forall_fmap. done.
Qed.

Lemma StronglySorted_sublist {A} (R : relation A) l1 l2 :
  l1 `sublist_of` l2 → StronglySorted R l2 → StronglySorted R l1.
Proof.
  induction 1 as [|x l1 l2 Hsub IH|x l1 l2 Hsub IH]; [done| |];
    rewrite !StronglySorted_cons; intros [Hall Hs]; [|by auto].
  split; [|by auto]. rewrite Forall_forall in Hall |- *.
  intros y Hy. apply Hall. by eapply sublist_subseteq.
Qed.

Lemma filter_sublist_mono {A} (P : A → Prop) `{!∀ x, Decision (P x)} l1 l2 :
  l1 `sublist_of` l2 → filter P l1 `sublist_of` filter P l2.
Proof.
  induction 1 as [|x l1 l2 Hsub IH|x l1 l2 Hsub IH]; [done| |];
    rewrite ?filter_cons; case_decide;
    (done || by apply sublist_skip || by apply sublist_cons).
Qed.

Lemma alter_combatant_sorted f cid l :
  (∀ c, initiative (f c) = initiative c) →
  StronglySorted by_initiative_desc l →
  StronglySorted by_initiative_desc (alter_combatant f cid l).
Proof. intros Hf. by rewrite !sorted_by_keys, alter_combatant_fmap. Qed.

Lemma alter_combatant_tied f cid i l :
  (∀ c, initiative (f c) = initiative c) → (∀ c, c_id (f c) = c_id c) →
  c_id <$> tied i (alter_combatant f cid l) = c_id <$> tied i l.
Proof.
  intros Hi Hid. unfold tied.
  induction l as [|c l IH]; [done|]. cbn [alter_combatant].
  destruct (String.eqb (c_id c) cid).
  - rewrite !filter_cons, Hi. case_decide; [|done]. by rewrite !fmap_cons, Hid.
  - rewrite !filter_cons. case_decide; [|done]. by rewrite !fmap_cons, IH.
Qed.

Lemma tied_sort i l : tied i (sort_by_initiative_desc l) = tied i l.
Proof. apply sort_by_initiative_desc_stable. Qed.

Lemma put_condition_same x :
  (∀ c, initiative (put_condition x c) = initiative c)
  ∧ (∀ c, c_id (put_condition x c) = c_id c).
Proof. split; intros c; unfold put_condition; by destruct (str_in _ _). Qed.

Lemma drop_condition_same x :
  (∀ c, initiative (drop_condition x c) = initiative c)
  ∧ (∀ c, c_id (drop_condition x c) = c_id c).
Proof. split; intros c; unfold drop_condition; by destruct (str_in _ _). Qed.

Lemma with_combatant_combatants uuid now r s :
  combatants (with_combatant uuid now r s)
  = sort_by_initiative_desc (combatants s ++ [new_combatant uuid r]).
Proof. done. Qed.

Lemma with_hp_combatants now r s :
  combatants (with_hp now r s)
  = alter_combatant (clamp_hp (hp_change r)) (uhr_combatant_id r) (combatants s).
Proof. done. Qed.

Lemma with_condition_combatants now r s :
  combatants (with_condition now r s)
  = alter_combatant (put_condition (adr_condition r)) (adr_combatant_id r)
      (combatants s).
Proof. done. Qed.

Lemma without_condition_combatants now r s :
  combatants (without_condition now r s)
  = alter_combatant (drop_condition (rcr_condition r)) (rcr_combatant_id r)
      (combatants s).
Proof. done. Qed.

Lemma advanced_combatants now s : combatants (advanced now s) = combatants s.
Proof. unfold advanced. by destruct (_ <=? _)%Z. Qed.

Lemma removed_combatants now cid s :
  combatants (removed now cid s) = without_combatant cid (combatants s).
Proof. unfold removed. by destruct (_ && _). Qed.

Lemma initiative_inv_step h q s s' :
  initiative_inv h s → session_after q s = Some s' →
  initiative_inv (h ++ uuids [q])%list s'.
Proof.
  intros [Hsorted Htied] Hafter.
  destruct q as [u n r|k|u n r|n r|n r|n r|n r|n k cid|k]; cbn in Hafter;
    try discriminate.
  - injection Hafter as <-. split; rewrite with_combatant_combatants.
    + apply sort_by_initiative_desc_sorted.
    + intros i. rewrite tied_sort. unfold tied. rewrite filter_app, fmap_app.
      apply sublist_app; [apply Htied|].
      rewrite filter_cons. case_decide; [done | apply sublist_nil_l].
  - destruct (find_combatant _ _); [|discriminate]. injection Hafter as <-.
    split; rewrite with_hp_combatants.
    + by apply alter_combatant_sorted.
    + intros i. rewrite alter_combatant_tied by done. apply sublist_inserts_r, Htied.
  - destruct (find_combatant _ _); [|discriminate]. injection Hafter as <-.
    destruct (put_condition_same (adr_condition r)).
    split; rewrite with_condition_combatants.
    + by apply alter_combatant_sorted.
    + intros i. rewrite alter_combatant_tied by done. apply sublist_inserts_r, Htied.
  - destruct (find_combatant _ _); [|discriminate]. injection Hafter as <-.
    destruct (drop_condition_same (rcr_condition r)).
    split; rewrite without_condition_combatants.
    + by apply alter_combatant_sorted.
    + intros i. rewrite alter_combatant_tied by done. apply sublist_inserts_r, Htied.
  - destruct (combatants s) as [|c l] eqn:El; [discriminate|].
    injection Hafter as <-.
    split; rewrite advanced_combatants, El; [done|].
    intros i. apply sublist_inserts_r, Htied.
  - injection Hafter as <-. split; rewrite removed_combatants.
    + eapply StronglySorted_sublist; [apply without_combatant_sublist | done].
    + intros i. apply sublist_inserts_r.
      trans (c_id <$> tied i (combatants s)); [|apply Htied].
      apply fmap_sublist, filter_sublist_mono, without_combatant_sublist.
Qed.

Lemma serve_cons q qs σ : serve (q :: qs) σ = serve qs (state_after q σ).
Proof. unfold serve. cbn [foldl]. by rewrite dispatch_state. Qed.

Lemma state_after_create uuid now r σ :
  state_after (CreateCombat uuid now r) σ = <[uuid := new_combat uuid now r]> σ.
Proof. done. Qed.

Lemma state_after_add uuid now r σ s :
  σ !! acr_combat_id r = Some s →
  state_after (AddCombatant uuid now r) σ
  = <[acr_combat_id r := with_combatant uuid now r s]> σ.
Proof. intros H. cbn. by rewrite H. Qed.

(** C3. After a successful [add_combatant] the session's combatants are
    sorted by initiative, highest first, and the sort is stable: the
    combatants of any one score keep their order, with the new one behind
    them. Along any run of the process the combatants of equal score
    therefore stand in the order in which they were inserted (the order in
    which their ids were drawn). Inserting initiatives 18, 12, 18 gives
    first 18, second 18, 12. *)
Theorem C3_add_combatant_sorted_stable :
  (∀ uuid now request σ s,
     σ !! acr_combat_id request = Some s →
     ∃ s', add_combatant uuid now request σ
             = (<[acr_combat_id request := s']> σ, inr s')
       ∧ StronglySorted by_initiative_desc (combatants s')
       ∧ combatants s' ≡ₚ combatants s ++ [new_combatant uuid request]
       ∧ ∀ i, tied i (combatants s')
              = (tied i (combatants s) ++ tied i [new_combatant uuid request])%list)
  ∧ (∀ qs k s,
       NoDup (uuids qs) → serve qs ∅ !! k = Some s →
       StronglySorted by_initiative_desc (combatants s)
       ∧ ∀ i, c_id <$> tied i (combatants s) `sublist_of` uuids qs)
  ∧ (∀ σ u0 n0 u1 n1 r1 u2 n2 r2 u3 n3 r3,
       acr_combat_id r1 = u0 → acr_combat_id r2 = u0 → acr_combat_id r3 = u0 →
       acr_initiative r1 = 18%Z → acr_initiative r2 = 12%Z →
       acr_initiative r3 = 18%Z →
       ∃ s', serve [CreateCombat u0 n0 (mkCreateCombatRequest "Goblin Ambush");
                    AddCombatant u1 n1 r1; AddCombatant u2 n2 r2;
                    AddCombatant u3 n3 r3] σ !! u0 = Some s'
         ∧ combatants s'
           = [new_combatant u1 r1; new_combatant u3 r3; new_combatant u2 r2]).
Proof.
  split; [|split].
  - intros uuid now request σ s H. exists (with_combatant uuid now request s).
    split; [by apply add_combatant_found|].
    rewrite with_combatant_combatants. split; [|split].
    + apply sort_by_initiative_desc_sorted.
    + apply sort_by_initiative_desc_perm.
    + intros i. rewrite tied_sort. unfold tied. by rewrite filter_app.
  - intros qs k s Hnd Hk. change (initiative_inv (uuids qs) s).
    apply (trace_invariant (λ _, True) initiative_inv) with (k := k);
      [| | |done|by apply Forall_true|done].
    + intros h h' s0 [? Ht]. split; [done|].
      intros i. apply sublist_inserts_r, Ht.
    + intros h u n r _. split; [constructor | intros i; apply sublist_nil_l].
    + intros h q s0 s' _ Hs0 _. by apply initiative_inv_step.
  - intros σ u0 n0 u1 n1 r1 u2 n2 r2 u3 n3 r3 H1 H2 H3 Hi1 Hi2 Hi3.
    destruct r1, r2, r3. cbn in H1, H2, H3, Hi1, Hi2, Hi3. subst.
    rewrite !serve_cons, state_after_create.
    erewrite (state_after_add u1 n1) by apply lookup_insert_eq.
    cbn [acr_combat_id]. rewrite insert_insert_eq.
    erewrite (state_after_add u2 n2) by apply lookup_insert_eq.
    cbn [acr_combat_id]. rewrite insert_insert_eq.
    erewrite (state_after_add u3 n3) by apply lookup_insert_eq.
    cbn [acr_combat_id]. rewrite insert_insert_eq.
    eexists. split; [apply lookup_insert_eq | reflexivity].
Qed.

Lemma skirmish_uuids_distinct : NoDup (uuids skirmish).
Proof. apply (bool_decide_unpack _). vm_compute. reflexivity. Defined.

Lemma C3_add_combatant_sorted_stable_witness :
  NoDup (uuids skirmish)
  ∧ serve skirmish ∅ !! "s1" = Some skirmish_session
  ∧ StronglySorted by_initiative_desc (combatants skirmish_session)
  ∧ ∀ i, c_id <$> tied i (combatants skirmish_session) `sublist_of` uuids skirmish.
Proof.
  assert (serve skirmish ∅ !! "s1" = Some skirmish_session) as Hs
    by (vm_compute; reflexivity).
  split; [exact skirmish_uuids_distinct|]. split; [exact Hs|].
  exact (proj1 (proj2 C3_add_combatant_sorted_stable)
           skirmish "s1" skirmish_session skirmish_uuids_distinct Hs).
Defined.

(** ** Turns and rounds *)

Lemma state_after_next now r σ s :
  σ !! ntr_combat_id r = Some s → combatants s ≠ [] →
  state_after (NextTurn now r) σ = <[ntr_combat_id r := advanced now s]> σ.
Proof.
  intros H Hne. cbn. rewrite H. by destruct (combatants s).
Qed.

Lemma advanced_no_wrap now s :
  (current_turn s + 1 < len (combatants s))%Z →
  current_turn (advanced now s) = (current_turn s + 1)%Z
  ∧ round_number (advanced now s) = round_number s.
Proof.
  intros H. unfold advanced.
  destruct (_ <=? _)%Z eqn:E; [apply Z.leb_le in E; lia | done].
Qed.

Lemma advanced_wrap now s :
  (len (combatants s) ≤ current_turn s + 1)%Z →
  current_turn (advanced now s) = 0%Z
  ∧ round_number (advanced now s) = (round_number s + 1)%Z.
Proof.
  intros H. unfold advanced.
  destruct (_ <=? _)%Z eqn:E; [done | apply Z.leb_gt in E; lia].
Qed.

(** Turns taken without reaching the end of the order move the cursor and
    nothing else. *)
Lemma serve_next_turns request nows : ∀ σ s,
  σ !! ntr_combat_id request = Some s →
  (0 ≤ current_turn s)%Z →
  (current_turn s + len nows < len (combatants s))%Z →
  ∃ s', serve ((λ now, NextTurn now request) <$> nows) σ
          !! ntr_combat_id request = Some s'
    ∧ current_turn s' = (current_turn s + len nows)%Z
    ∧ round_number s' = round_number s
    ∧ combatants s' = combatants s.
Proof.
  unfold len. induction nows as [|now nows IH]; intros σ s Hs H0 Hlt.
  - exists s. cbn. split; [done|]. split; [lia | done].
  - rewrite fmap_cons, serve_cons. cbn [length] in Hlt.
    assert (combatants s ≠ []) as Hne.
    { intros He. rewrite He in Hlt. cbn [length] in Hlt. lia. }
    rewrite (state_after_next _ _ _ _ Hs Hne).
    destruct (advanced_no_wrap now s) as [Ht Hr]; [unfold len; lia|].
    destruct (IH (<[ntr_combat_id request := advanced now s]> σ) (advanced now s))
      as (s' & Hs' & Ht' & Hr' & Hc').
    + apply lookup_insert_eq.
    + lia.
    + rewrite advanced_combatants, Ht. lia.
    + exists s'. split; [done|]. rewrite Ht', Hr', Hc', Ht, Hr, advanced_combatants.
      cbn [length]. split; [lia | done].
Qed.

(** C4. [next_turn] on a session with a combatant adds 1 to [current_turn];
    when that reaches the number of combatants the cursor wraps to 0 and
    [round_number] grows by 1. As many calls as there are combatants, from
    round 1 and turn 0, end at turn 0 in round 2. No other request changes
    the round number of a session. *)
Theorem C4_next_turn_rounds :
  (∀ now request σ s,
     σ !! ntr_combat_id request = Some s → combatants s ≠ [] →
     ∃ s', next_turn now request σ
             = (<[ntr_combat_id request := s']> σ, inr s')
       ∧ combatants s' = combatants s
       ∧ ((current_turn s + 1 < len (combatants s))%Z →
          current_turn s' = (current_turn s + 1)%Z
          ∧ round_number s' = round_number s)
       ∧ ((current_turn s + 1 = len (combatants s))%Z →
          current_turn s' = 0%Z
          ∧ round_number s' = (round_number s + 1)%Z))
  ∧ (∀ nows request σ s,
       σ !! ntr_combat_id request = Some s → combatants s ≠ [] →
       current_turn s = 0%Z → round_number s = 1%Z →
       length nows = length (combatants s) →
       ∃ s', serve ((λ now, NextTurn now request) <$> nows) σ
               !! ntr_combat_id request = Some s'
         ∧ current_turn s' = 0%Z ∧ round_number s' = 2%Z
         ∧ combatants s' = combatants s)
  ∧ (∀ q σ k s s',
       σ !! k = Some s → (dispatch q σ).1 !! k = Some s' → k ∉ uuids [q] →
       round_number s' ≠ round_number s →
       ∃ now request, q = NextTurn now request ∧ ntr_combat_id request = k
         ∧ (len (combatants s) ≤ current_turn s + 1)%Z
         ∧ current_turn s' = 0%Z
         ∧ round_number s' = (round_number s + 1)%Z).
Proof.
  split; [|split].
  - intros now request σ s Hs Hne. exists (advanced now s).
    split; [by apply next_turn_found|]. split; [apply advanced_combatants|].
    split; intros H; [by apply advanced_no_wrap | apply advanced_wrap; lia].
  - intros nows request σ s Hs Hne Ht Hr Hlen.
    destruct nows as [|now nows] using rev_ind.
    { destruct (combatants s); [done | discriminate]. }
    clear IHnows. rewrite length_app in Hlen. cbn in Hlen.
    rewrite fmap_app, fmap_cons, fmap_nil, serve_snoc.
    destruct (serve_next_turns request nows σ s Hs) as (s1 & Hs1 & Ht1 & Hr1 & Hc1);
      [lia | unfold len; lia |].
    assert (combatants s1 ≠ []) as Hne1 by by rewrite Hc1.
    rewrite (state_after_next _ _ _ _ Hs1 Hne1).
    destruct (advanced_wrap now s1) as [Ht2 Hr2].
    { rewrite Hc1, Ht1, Ht. unfold len. lia. }
    exists (advanced now s1). split; [apply lookup_insert_eq|].
    rewrite Ht2, Hr2, Hr1, Hr, advanced_combatants, Hc1. done.
  - intros q σ k s s' Hs Hs' Hfresh Hround. rewrite dispatch_state in Hs'.
    apply state_after_lookup in Hs'
      as [(u & n & r & -> & -> & ->)|[(s0 & Hs0 & Ht & Hafter)|Hsame]].
    + exfalso. apply Hfresh. cbn. left.
    + rewrite Hs in Hs0. injection Hs0 as <-.
      destruct q as [u n r|k0|u n r|n r|n r|n r|n r|n k0 cid|k0];
        cbn in Hafter, Ht; try discriminate.
      * by injection Hafter as <-.
      * destruct (find_combatant _ _); [|discriminate]. by injection Hafter as <-.
      * destruct (find_combatant _ _); [|discriminate]. by injection Hafter as <-.
      * destruct (find_combatant _ _); [|discriminate]. by injection Hafter as <-.
      * destruct (combatants s) as [|c l] eqn:El; [discriminate|].
        injection Hafter as <-. injection Ht as <-.
        exists n, r. split; [done|]. split; [done|].
        destruct (Z_lt_le_dec (current_turn s + 1) (len (combatants s))) as [Hlt|Hle].
        -- destruct (advanced_no_wrap n s Hlt) as [_ Hr]. congruence.
        -- destruct (advanced_wrap n s Hle) as [Ht' Hr]. by rewrite <- El.
      * injection Hafter as <-. exfalso. apply Hround. unfold removed.
        by destruct (_ && _).
    + rewrite Hs in Hsame. injection Hsame as <-. done.
Qed.

Lemma C4_next_turn_rounds_witness :
  serve muster ∅ !! "s1" = Some muster_session
  ∧ combatants muster_session ≠ []
  ∧ current_turn muster_session = 0%Z ∧ round_number muster_session = 1%Z
  ∧ ∃ s', serve ((λ now, NextTurn now (mkNextTurnRequest "s1")) <$> ["t4"; "t5"; "t6"])
                (serve muster ∅) !! "s1" = Some s'
      ∧ current_turn s' = 0%Z ∧ round_number s' = 2%Z
      ∧ combatants s' = combatants muster_session.
Proof.
  assert (serve muster ∅ !! "s1" = Some muster_session) as Hs
    by (vm_compute; reflexivity).
  assert (combatants muster_session ≠ []) as Hne by (cbn; discriminate).
  split; [exact Hs|]. split; [exact Hne|]. split; [reflexivity|]. split; [reflexivity|].
  exact (proj1 (proj2 C4_next_turn_rounds) ["t4"; "t5"; "t6"]
           (mkNextTurnRequest "s1") (serve muster ∅) muster_session
           Hs Hne eq_refl eq_refl eq_refl).
Defined.

(** ** Removing a combatant *)

Lemma without_combatant_last (l : list Combatant) x :
  NoDup (c_id <$> (l ++ [x])%list) →
  without_combatant (c_id x) (l ++ [x])%list = l.
Proof.
  rewrite fmap_app. intros (_ & Hnot & _)%NoDup_app.
  unfold without_combatant. rewrite filter_app, filter_cons_False, filter_nil, app_nil_r
    by (intros H; by apply H).
  apply without_combatant_absent. intros Hin. apply (Hnot _ Hin). cbn. left.
Qed.

(** C5. [remove_combatant] on an existing session succeeds and keeps
    exactly the combatants whose id differs from the given one, in their
    order; when no combatant has that id the sequence is unchanged. The
    cursor is set to 0 if it is at or past the new length and the sequence
    is not empty; in every other case it keeps its value, so it is never
    decremented. The round number is untouched. Removing the last combatant
    of the order while the cursor is on it leaves the cursor at 0. *)
Theorem C5_remove_combatant now k cid σ s :
  σ !! k = Some s →
  ∃ s', remove_combatant now k cid σ = (<[k := s']> σ, inr s')
    ∧ combatants s' = filter (λ c, c_id c ≠ cid) (combatants s)
    ∧ (cid ∉ c_id <$> combatants s → combatants s' = combatants s)
    ∧ ((len (combatants s') ≤ current_turn s)%Z → combatants s' ≠ [] →
       current_turn s' = 0%Z)
    ∧ ((current_turn s < len (combatants s'))%Z →
       current_turn s' = current_turn s)
    ∧ (combatants s' = [] → current_turn s' = current_turn s)
    ∧ (current_turn s' = current_turn s ∨ current_turn s' = 0%Z)
    ∧ round_number s' = round_number s
    ∧ (NoDup (c_id <$> combatants s) →
       c_id <$> last (combatants s) = Some cid →
       current_turn s = (len (combatants s) - 1)%Z →
       current_turn s' = 0%Z).
Proof.
  intros Hs. exists (removed now cid s).
  split; [by apply remove_combatant_found|]. rewrite removed_combatants.
  split; [done|].
  assert (current_turn (removed now cid s)
          = if (len (without_combatant cid (combatants s)) <=? current_turn s)%Z
               && match without_combatant cid (combatants s) with
                  | [] => false | _ :: _ => true end
            then 0%Z else current_turn s) as Hturn.
  { unfold removed. by destruct (_ && _). }
  assert (round_number (removed now cid s) = round_number s) as Hround.
  { unfold removed. by destruct (_ && _). }
  rewrite Hturn, Hround. split; [apply without_combatant_absent|].
  split; [|split; [|split; [|split; [|split; [done|]]]]].
  - intros Hle Hne. apply Z.leb_le in Hle. rewrite Hle.
    by destruct (without_combatant cid (combatants s)).
  - intros Hlt. apply Z.leb_gt in Hlt. by rewrite Hlt.
  - intros ->. by rewrite andb_false_r.
  - destruct (_ && _); auto.
  - intros Hnd Hlast Hcur.
    apply fmap_Some in Hlast as (x & Hlast & ->).
    apply last_Some in Hlast as [l Hl]. rewrite Hl in *.
    rewrite without_combatant_last by done.
    unfold len in *. rewrite length_app in Hcur. cbn [length] in Hcur.
    destruct l as [|c l]; [rewrite andb_false_r; cbn in Hcur; lia|].
    rewrite andb_true_r, (proj2 (Z.leb_le _ _)); [done|].
    rewrite Hcur. cbn [length]. lia.
Qed.

Lemma C5_remove_combatant_witness :
  serve standoff ∅ !! "s1" = Some standoff_session
  ∧ ∃ s', remove_combatant "t6" "s1" "b" (serve standoff ∅)
            = (<["s1" := s']> (serve standoff ∅), inr s')
      ∧ combatants s' = filter (λ c, c_id c ≠ "b") (combatants standoff_session)
      ∧ ("b" ∉ c_id <$> combatants standoff_session →
         combatants s' = combatants standoff_session)
      ∧ ((len (combatants s') ≤ current_turn standoff_session)%Z →
         combatants s' ≠ [] → current_turn s' = 0%Z)
      ∧ ((current_turn standoff_session < len (combatants s'))%Z →
         current_turn s' = current_turn standoff_session)
      ∧ (combatants s' = [] → current_turn s' = current_turn standoff_session)
      ∧ (current_turn s' = current_turn standoff_session ∨ current_turn s' = 0%Z)
      ∧ round_number s' = round_number standoff_session
      ∧ (NoDup (c_id <$> combatants standoff_session) →
         c_id <$> last (combatants standoff_session) = Some "b" →
         current_turn standoff_session
         = (len (combatants standoff_session) - 1)%Z →
         current_turn s' = 0%Z).
Proof.
  assert (serve standoff ∅ !! "s1" = Some standoff_session) as Hs
    by (vm_compute; reflexivity).
  split; [exact Hs|].
  exact (C5_remove_combatant "t6" "s1" "b" (serve standoff ∅) standoff_session Hs).
Defined.

(** ** Damage and healing *)

Lemma find_alter_combatant f cid l :
  (∀ c, c_id (f c) = c_id c) →
  find_combatant cid (alter_combatant f cid l) = f <$> find_combatant cid l.
Proof.
  intros Hid. induction l as [|c l IH]; cbn; [done|].
  destruct (String.eqb (c_id c) cid) eqn:E; cbn; by rewrite ?Hid, E.
Qed.

(** C6, as the claim states it, fails for a combatant whose [hp_max] is
    negative: the clamp [max(0, min(hp, hp_max))] then yields 0, not
    [hp_max]. *)
Lemma C6_negative_hp_max_clamps_to_zero :
  ¬ (∀ now request σ s c,
       σ !! uhr_combat_id request = Some s →
       find_combatant (uhr_combatant_id request) (combatants s) = Some c →
       ∃ s' c', update_hp now request σ
                  = (<[uhr_combat_id request := s']> σ, inr s')
         ∧ find_combatant (uhr_combatant_id request) (combatants s') = Some c'
         ∧ ((hp_current c + hp_change request < 0)%Z → hp_current c' = 0%Z)
         ∧ ((hp_max c < hp_current c + hp_change request)%Z →
            hp_current c' = hp_max c)).
Proof.
  intros H.
  destruct (H "t2" (mkUpdateHPRequest "s1" "a" 0) (serve hollow ∅)
              hollow_session hollow_combatant)
    as (s' & c' & Hrun & Hfind & _ & Hmax);
    [vm_compute; reflexivity | vm_compute; reflexivity |].
  assert (hp_current c' = hp_max hollow_combatant) as Habs
    by (apply Hmax; cbn; lia).
  assert (s' = with_hp "t2" (mkUpdateHPRequest "s1" "a" 0) hollow_session) as ->.
  { rewrite (update_hp_found "t2" (mkUpdateHPRequest "s1" "a" 0) (serve hollow ∅)
               hollow_session hollow_combatant) in Hrun
      by (vm_compute; reflexivity).
    by injection Hrun as _ <-. }
  cbn in Hfind. injection Hfind as <-. cbn in Habs. lia.
Qed.

(** C6, amended. For an existing session and combatant [update_hp]
    succeeds and sets [hp_current] to [max 0 (min (hp_current + delta)
    hp_max)]: exactly 0 when the sum is negative (never below 0), and
    exactly [hp_max] when the sum exceeds [hp_max], provided [hp_max] is not
    negative. From 5 of 20 hit points a change of -10 gives 0, and a
    following change of +50 gives 20. *)
Theorem C6_update_hp_clamps :
  (∀ now request σ s c,
     σ !! uhr_combat_id request = Some s →
     find_combatant (uhr_combatant_id request) (combatants s) = Some c →
     ∃ s' c', update_hp now request σ
                = (<[uhr_combat_id request := s']> σ, inr s')
       ∧ find_combatant (uhr_combatant_id request) (combatants s') = Some c'
       ∧ hp_max c' = hp_max c
       ∧ hp_current c'
         = Z.max 0 (Z.min (hp_current c + hp_change request) (hp_max c))
       ∧ (0 ≤ hp_current c')%Z
       ∧ ((hp_current c + hp_change request < 0)%Z → hp_current c' = 0%Z)
       ∧ ((0 ≤ hp_max c)%Z → (hp_max c < hp_current c + hp_change request)%Z →
          hp_current c' = hp_max c))
  ∧ (∀ now1 now2 k cid σ s c,
       σ !! k = Some s → find_combatant cid (combatants s) = Some c →
       hp_max c = 20%Z → hp_current c = 5%Z →
       ∃ s1 c1 s2 c2,
         update_hp now1 (mkUpdateHPRequest k cid (-10)) σ
           = (<[k := s1]> σ, inr s1)
         ∧ find_combatant cid (combatants s1) = Some c1
         ∧ hp_current c1 = 0%Z
         ∧ update_hp now2 (mkUpdateHPRequest k cid 50) (<[k := s1]> σ)
           = (<[k := s2]> (<[k := s1]> σ), inr s2)
         ∧ find_combatant cid (combatants s2) = Some c2
         ∧ hp_current c2 = 20%Z).
Proof.
  assert (∀ now request σ s c,
     σ !! uhr_combat_id request = Some s →
     find_combatant (uhr_combatant_id request) (combatants s) = Some c →
     update_hp now request σ
       = (<[uhr_combat_id request := with_hp now request s]> σ,
          inr (with_hp now request s))
     ∧ find_combatant (uhr_combatant_id request)
         (combatants (with_hp now request s))
       = Some (clamp_hp (hp_change request) c)) as Hrun.
  { intros now request σ s c Hs Hc. split; [by eapply update_hp_found|].
    by rewrite with_hp_combatants, find_alter_combatant, Hc. }
  split.
  - intros now request σ s c Hs Hc. destruct (Hrun now request σ s c Hs Hc) as [H1 H2].
    exists (with_hp now request s), (clamp_hp (hp_change request) c).
    split; [done|]. split; [done|]. cbn. repeat split; lia.
  - intros now1 now2 k cid σ s c Hs Hc Hmax Hcur.
    destruct (Hrun now1 (mkUpdateHPRequest k cid (-10)) σ s c Hs Hc) as [H1 H2].
    cbn [uhr_combat_id uhr_combatant_id hp_change] in H1, H2.
    destruct (Hrun now2 (mkUpdateHPRequest k cid 50) (<[k := with_hp now1 (mkUpdateHPRequest k cid (-10)) s]> σ)
                _ _ (lookup_insert_eq _ _ _) H2) as [H3 H4].
    cbn [uhr_combat_id uhr_combatant_id hp_change] in H3, H4.
    eexists _, _, _, _. split; [exact H1|]. split; [exact H2|].
    split; [cbn; lia|]. split; [exact H3|]. split; [exact H4|]. cbn. lia.
Qed.

Lemma C6_update_hp_clamps_witness :
  serve muster ∅ !! "s1" = Some muster_session
  ∧ find_combatant "a" (combatants muster_session) = Some skirmish_combatant
  ∧ hp_max skirmish_combatant = 20%Z ∧ hp_current skirmish_combatant = 5%Z
  ∧ ∃ s1 c1 s2 c2,
      update_hp "t4" (mkUpdateHPRequest "s1" "a" (-10)) (serve muster ∅)
        = (<["s1" := s1]> (serve muster ∅), inr s1)
      ∧ find_combatant "a" (combatants s1) = Some c1
      ∧ hp_current c1 = 0%Z
      ∧ update_hp "t5" (mkUpdateHPRequest "s1" "a" 50) (<["s1" := s1]> (serve muster ∅))
        = (<["s1" := s2]> (<["s1" := s1]> (serve muster ∅)), inr s2)
      ∧ find_combatant "a" (combatants s2) = Some c2
      ∧ hp_current c2 = 20%Z.
Proof.
  assert (serve muster ∅ !! "s1" = Some muster_session) as Hs
    by (vm_compute; reflexivity).
  assert (find_combatant "a" (combatants muster_session) = Some skirmish_combatant)
    as Hc by (vm_compute; reflexivity).
  split; [exact Hs|]. split; [exact Hc|]. split; [reflexivity|]. split; [reflexivity|].
  exact (proj2 C6_update_hp_clamps "t4" "t5" "s1" "a" (serve muster ∅)
           muster_session skirmish_combatant Hs Hc eq_refl eq_refl).
Defined.

(** ** Conditions are a set *)

Lemma str_in_elem_of x l : str_in x l = true ↔ x ∈ l.
Proof.
  induction l as [|y l IH]; cbn.
  - split; [done | by intros ?%elem_of_nil].
  - rewrite elem_of_cons. destruct (String.eqb y x) eqn:E.
    + apply String.eqb_eq in E. split; [by left | done].
    + apply String.eqb_neq in E. rewrite IH. split; [by right | intros [?|?]; congruence].
Qed.

Lemma list_remove_first_sublist x l : list_remove_first x l `sublist_of` l.
Proof.
  induction l as [|y l IH]; cbn; [done|].
  destruct (String.eqb y x); [by apply sublist_cons | by apply sublist_skip].
Qed.

Lemma put_condition_idem x c :
  put_condition x (put_condition x c) = put_condition x c.
Proof.
  unfold put_condition. destruct (str_in x (conditions c)) eqn:E; [by rewrite E|].
  cbn. replace (str_in x (conditions c ++ [x])) with true; [done|].
  symmetry. apply str_in_elem_of, elem_of_app. right. left.
Qed.

Lemma put_condition_elem_of x c : x ∈ conditions (put_condition x c).
Proof.
  unfold put_condition. destruct (str_in x (conditions c)) eqn:E.
  - by apply str_in_elem_of.
  - cbn. apply elem_of_app. right. left.
Qed.

Lemma put_condition_NoDup x c :
  NoDup (conditions c) → NoDup (conditions (put_condition x c)).
Proof.
  intros Hnd. unfold put_condition. destruct (str_in x (conditions c)) eqn:E; [done|].
  cbn. apply NoDup_app. split; [done|]. split; [|apply NoDup_singleton].
  intros y Hy Hy'. apply list_elem_of_singleton in Hy' as ->.
  apply str_in_elem_of in Hy. congruence.
Qed.

Lemma drop_condition_NoDup x c :
  NoDup (conditions c) → NoDup (conditions (drop_condition x c)).
Proof.
  intros Hnd. unfold drop_condition. destruct (str_in x (conditions c)); [|done].
  cbn. eapply sublist_NoDup; [exact Hnd | apply list_remove_first_sublist].
Qed.

Lemma drop_condition_absent x c : x ∉ conditions c → drop_condition x c = c.
Proof.
  intros H. unfold drop_condition.
  destruct (str_in x (conditions c)) eqn:E; [|done].
  by apply str_in_elem_of in E.
Qed.

Lemma alter_combatant_id f cid l :
  (∀ c, find_combatant cid l = Some c → f c = c) → alter_combatant f cid l = l.
Proof.
  induction l as [|c l IH]; cbn; [done|]. intros H.
  destruct (String.eqb (c_id c) cid); [by rewrite H | by rewrite IH].
Qed.

Lemma conditions_NoDup_step q s s' :
  Forall (λ c, NoDup (conditions c)) (combatants s) →
  session_after q s = Some s' →
  Forall (λ c, NoDup (conditions c)) (combatants s').
Proof.
  intros Hs Hafter.
  destruct q as [u n r|k|u n r|n r|n r|n r|n r|n k cid|k]; cbn in Hafter;
    try discriminate.
  - injection Hafter as <-.
    rewrite with_combatant_combatants, sort_by_initiative_desc_perm.
    apply Forall_app. split; [done|]. apply Forall_singleton. cbn. constructor.
  - destruct (find_combatant _ _); [|discriminate]. injection Hafter as <-.
    rewrite with_hp_combatants. by apply Forall_alter_combatant.
  - destruct (find_combatant _ _); [|discriminate]. injection Hafter as <-.
    rewrite with_condition_combatants.
    apply Forall_alter_combatant; [|done]. intros d. apply put_condition_NoDup.
  - destruct (find_combatant _ _); [|discriminate]. injection Hafter as <-.
    rewrite without_condition_combatants.
    apply Forall_alter_combatant; [|done]. intros d. apply drop_condition_NoDup.
  - destruct (combatants s) as [|c l] eqn:El; [discriminate|].
    injection Hafter as <-. by rewrite advanced_combatants, El.
  - injection Hafter as <-. rewrite removed_combatants.
    rewrite Forall_forall in Hs |- *. intros x Hx. apply Hs.
    by eapply sublist_subseteq; [apply without_combatant_sublist|].
Qed.

(** C7. On an existing combatant [add_condition] succeeds and leaves the
    label present once; a second call with the same label succeeds and
    changes no combatant. [remove_condition] with a label the combatant
    does not carry succeeds and changes no combatant. In every state the
    process can reach no combatant carries a label twice. *)
Theorem C7_conditions_idempotent :
  (∀ now1 now2 request σ s c,
     σ !! adr_combat_id request = Some s →
     find_combatant (adr_combatant_id request) (combatants s) = Some c →
     ∃ s1 c1 s2,
       add_condition now1 request σ
         = (<[adr_combat_id request := s1]> σ, inr s1)
       ∧ find_combatant (adr_combatant_id request) (combatants s1) = Some c1
       ∧ adr_condition request ∈ conditions c1
       ∧ (NoDup (conditions c) → NoDup (conditions c1))
       ∧ add_condition now2 request (<[adr_combat_id request := s1]> σ)
         = (<[adr_combat_id request := s2]> (<[adr_combat_id request := s1]> σ),
            inr s2)
       ∧ combatants s2 = combatants s1)
  ∧ (∀ now request σ s c,
       σ !! rcr_combat_id request = Some s →
       find_combatant (rcr_combatant_id request) (combatants s) = Some c →
       rcr_condition request ∉ conditions c →
       ∃ s', remove_condition now request σ
               = (<[rcr_combat_id request := s']> σ, inr s')
         ∧ combatants s' = combatants s)
  ∧ (∀ σ k s c,
       reachable σ → σ !! k = Some s → c ∈ combatants s → NoDup (conditions c)).
Proof.
  split; [|split].
  - intros now1 now2 request σ s c Hs Hc.
    destruct (put_condition_same (adr_condition request)) as [_ Hid].
    assert (find_combatant (adr_combatant_id request)
              (combatants (with_condition now1 request s))
            = Some (put_condition (adr_condition request) c)) as Hc1.
    { by rewrite with_condition_combatants, find_alter_combatant, Hc. }
    exists (with_condition now1 request s), (put_condition (adr_condition request) c),
      (with_condition now2 request (with_condition now1 request s)).
    split; [by eapply add_condition_found|]. split; [done|].
    split; [apply put_condition_elem_of|]. split; [apply put_condition_NoDup|].
    split; [eapply add_condition_found; [apply lookup_insert_eq | exact Hc1]|].
    rewrite !with_condition_combatants, alter_combatant_twice by done.
    apply alter_combatant_ext. intros d _. apply put_condition_idem.
  - intros now request σ s c Hs Hc Habsent.
    exists (without_condition now request s).
    split; [by eapply remove_condition_found|].
    rewrite without_condition_combatants. apply alter_combatant_id.
    intros d Hd. rewrite Hc in Hd. injection Hd as <-.
    by apply drop_condition_absent.
  - intros σ k s c (qs & Hnd & _ & ->) Hk Hc.
    assert (Forall (λ c, NoDup (conditions c)) (combatants s)) as Hall.
    { apply (trace_invariant (λ _, True)
               (λ _ s, Forall (λ c, NoDup (conditions c)) (combatants s)))
        with qs k; [done | by constructor | | done | by apply Forall_true | done].
      intros h q s0 s' _ Hs0 _. by apply conditions_NoDup_step. }
    rewrite Forall_forall in Hall. by apply Hall.
Qed.

Lemma C7_conditions_idempotent_witness :
  serve skirmish ∅ !! "s1" = Some skirmish_session
  ∧ find_combatant "a" (combatants skirmish_session) = Some skirmish_combatant
  ∧ ∃ s1 c1 s2,
      add_condition "t7" (mkAddConditionRequest "s1" "a" "Poisoned") (serve skirmish ∅)
        = (<["s1" := s1]> (serve skirmish ∅), inr s1)
      ∧ find_combatant "a" (combatants s1) = Some c1
      ∧ "Poisoned" ∈ conditions c1
      ∧ (NoDup (conditions skirmish_combatant) → NoDup (conditions c1))
      ∧ add_condition "t8" (mkAddConditionRequest "s1" "a" "Poisoned")
          (<["s1" := s1]> (serve skirmish ∅))
        = (<["s1" := s2]> (<["s1" := s1]> (serve skirmish ∅)), inr s2)
      ∧ combatants s2 = combatants s1.
Proof.
  assert (serve skirmish ∅ !! "s1" = Some skirmish_session) as Hs
    by (vm_compute; reflexivity).
  assert (find_combatant "a" (combatants skirmish_session) = Some skirmish_combatant)
    as Hc by (vm_compute; reflexivity).
  split; [exact Hs|]. split; [exact Hc|].
  exact (proj1 C7_conditions_idempotent "t7" "t8"
           (mkAddConditionRequest "s1" "a" "Poisoned") (serve skirmish ∅)
           skirmish_session skirmish_combatant Hs Hc).
Defined.

(** ** Failure semantics *)

Lemma respond_run {A} (f : A → Response) (h : Handler A) σ :
  respond f h σ
  = match h σ with
    | (σ', inl e) => (σ', inl e)
    | (σ', inr a) => (σ', inr (f a))
    end.
Proof. unfold respond. unfold_handler. by destruct (h σ) as [σ' [e|a]]. Qed.

(** A request either raises the exception [failure] names, leaving the
    dictionary as it was, or returns a response. *)
Lemma dispatch_failure q σ :
  match failure q σ with
  | Some e => dispatch q σ = (σ, inl e)
  | None => ∃ r, (dispatch q σ).2 = inr r
  end.
Proof.
  destruct q as [u n r|k|u n r|n r|n r|n r|n r|n k cid|k];
    unfold failure; cbn [dispatch target looked_up_combatant]; rewrite respond_run.
  - rewrite create_combat_run. eauto.
  - destruct (σ !! k) as [s|] eqn:H;
      [rewrite (get_combat_found _ _ _ H); cbn; eauto
      | by rewrite (get_combat_missing _ _ H)].
  - destruct (σ !! acr_combat_id r) as [s|] eqn:H;
      [rewrite (add_combatant_found _ _ _ _ _ H); cbn; eauto
      | by rewrite (add_combatant_missing _ _ _ _ H)].
  - destruct (σ !! uhr_combat_id r) as [s|] eqn:H;
      [|by rewrite (update_hp_missing _ _ _ H)].
    destruct (find_combatant _ _) as [c|] eqn:Hc;
      [rewrite (update_hp_found _ _ _ _ _ H Hc); cbn; eauto
      | by rewrite (update_hp_no_combatant _ _ _ _ H Hc)].
  - destruct (σ !! adr_combat_id r) as [s|] eqn:H;
      [|by rewrite (add_condition_missing _ _ _ H)].
    destruct (find_combatant _ _) as [c|] eqn:Hc;
      [rewrite (add_condition_found _ _ _ _ _ H Hc); cbn; eauto
      | by rewrite (add_condition_no_combatant _ _ _ _ H Hc)].
  - destruct (σ !! rcr_combat_id r) as [s|] eqn:H;
      [|by rewrite (remove_condition_missing _ _ _ H)].
    destruct (find_combatant _ _) as [c|] eqn:Hc;
      [rewrite (remove_condition_found _ _ _ _ _ H Hc); cbn; eauto
      | by rewrite (remove_condition_no_combatant _ _ _ _ H Hc)].
  - destruct (σ !! ntr_combat_id r) as [s|] eqn:H;
      [|by rewrite (next_turn_missing _ _ _ H)].
    destruct (combatants s) as [|c l] eqn:El;
      [by rewrite (next_turn_empty _ _ _ _ H El)|].
    rewrite (next_turn_found _ _ _ _ H) by by rewrite El. cbn. eauto.
  - destruct (σ !! k) as [s|] eqn:H;
      [rewrite (remove_combatant_found _ _ _ _ _ H); cbn; eauto
      | by rewrite (remove_combatant_missing _ _ _ _ H)].
  - destruct (σ !! k) as [s|] eqn:H;
      [rewrite (delete_combat_found _ _ _ H); cbn; eauto
      | by rewrite (delete_combat_missing _ _ H)].
Qed.

Lemma dispatch_raises q σ e :
  (dispatch q σ).2 = inl e ↔ failure q σ = Some e.
Proof.
  pose proof (dispatch_failure q σ) as H.
  destruct (failure q σ) as [e'|].
  - rewrite H. cbn. split; congruence.
  - destruct H as [r Hr]. rewrite Hr. split; discriminate.
Qed.

Lemma referents_exist_found combatant_of q σ k s :
  target q = Some k → σ !! k = Some s →
  referents_exist combatant_of q σ
  ↔ match combatant_of q with
    | None => True
    | Some cid => is_Some (find_combatant cid (combatants s))
    end.
Proof.
  intros Ht Hs. unfold referents_exist. rewrite Ht, Hs. split.
  - by intros (s' & [= <-] & H).
  - eauto.
Qed.

(** C8, as the claim states it, fails: [remove_combatant] is addressed to a
    combatant but does not raise when no combatant has that id. *)
Lemma C8_remove_combatant_absent_is_no_error :
  ¬ (∀ q σ, is_not_found (dispatch q σ).2
            ↔ ¬ referents_exist addressed_combatant q σ).
Proof.
  intros H.
  destruct (H (RemoveCombatant "t4" "s1" "zz") (serve muster ∅)) as [_ Hraise].
  destruct Hraise as [detail Hd].
  - intros (s & Hs & Hc). vm_compute in Hs. injection Hs as <-.
    destruct Hc as [c Hc]. vm_compute in Hc. discriminate.
  - apply dispatch_raises in Hd. vm_compute in Hd. discriminate.
Qed.

(** C8, amended. A request fails with NotFound exactly when the session it
    refers to does not exist or, for [update_hp], [add_condition] and
    [remove_condition], when the session has no combatant with the given
    id; the session is checked first. [remove_combatant] does not fail for
    an unknown combatant. [next_turn] fails with InvalidState exactly when
    the session exists and has no combatants, and no other request does. A
    request that raises leaves the dictionary unchanged. *)
Theorem C8_failure_semantics q σ :
  (is_not_found (dispatch q σ).2 ↔ ¬ referents_exist looked_up_combatant q σ)
  ∧ (∀ k, target q = Some k → σ !! k = None →
       (dispatch q σ).2 = inl not_found_combat)
  ∧ (is_invalid_state (dispatch q σ).2
     ↔ ∃ now r s, q = NextTurn now r ∧ σ !! ntr_combat_id r = Some s
                  ∧ combatants s = [])
  ∧ (∀ e, (dispatch q σ).2 = inl e → (dispatch q σ).1 = σ).
Proof.
  assert (is_not_found (dispatch q σ).2
          ↔ ∃ d, failure q σ = Some (HTTPException 404 d)) as Hnf.
  { unfold is_not_found. by setoid_rewrite dispatch_raises. }
  assert (is_invalid_state (dispatch q σ).2
          ↔ ∃ d, failure q σ = Some (HTTPException 400 d)) as His.
  { unfold is_invalid_state. by setoid_rewrite dispatch_raises. }
  rewrite Hnf, His. clear Hnf His. split; [|split; [|split]].
  - destruct (target q) as [k|] eqn:Ht.
    2:{ unfold failure, referents_exist. rewrite Ht.
        split; [by intros [d Hd] | by intros []]. }
    destruct (σ !! k) as [s|] eqn:Hs.
    2:{ unfold failure, referents_exist. rewrite Ht, Hs.
        split; [by intros _ (s & Hs' & _) | unfold not_found_combat; eauto]. }
    rewrite (referents_exist_found _ _ _ _ _ Ht Hs).
    unfold failure. rewrite Ht, Hs.
    destruct (looked_up_combatant q) as [cid|].
    + destruct (find_combatant cid (combatants s)) as [c|].
      * split; [by intros [d Hd] | intros []; eauto].
      * split; [by intros _ [c Hc] | unfold not_found_combatant; eauto].
    + split; [|by intros []].
      intros [d Hd]. destruct q, (combatants s); discriminate.
  - intros k Hk Hnone. apply dispatch_raises. unfold failure. by rewrite Hk, Hnone.
  - unfold failure. split.
    + intros [d Hd]. destruct (target q) as [k|] eqn:Ht; [|done].
      destruct (σ !! k) as [s|] eqn:Hs; [|done].
      destruct (looked_up_combatant q) as [cid|];
        [by destruct (find_combatant cid (combatants s))|].
      destruct q as [u n r|k0|u n r|n r|n r|n r|n r|n k0 cid|k0]; try done;
        try by destruct (combatants s).
      destruct (combatants s) eqn:El; [|done].
      injection Ht as <-. eauto 10.
    + intros (now & r & s & -> & Hs & He). cbn. rewrite Hs, He.
      unfold no_combatants. eauto.
  - intros e Hraise. apply dispatch_raises in Hraise.
    pose proof (dispatch_failure q σ) as H. rewrite Hraise in H. by rewrite H.
Qed.

(** ** [next_turn] from any cursor *)

Lemma session_after_cursor_nonneg q s s' :
  (0 ≤ current_turn s)%Z → session_after q s = Some s' →
  (0 ≤ current_turn s')%Z.
Proof.
  intros Hs.
  destruct q as [u n r|k|u n r|n r|n r|n r|n r|n k cid|k]; cbn;
    try discriminate.
  - by intros [= <-].
  - destruct (find_combatant _ _); [|discriminate]. by intros [= <-].
  - destruct (find_combatant _ _); [|discriminate]. by intros [= <-].
  - destruct (find_combatant _ _); [|discriminate]. by intros [= <-].
  - destruct (combatants s); [discriminate|]. intros [= <-].
    unfold advanced. destruct (_ <=? _)%Z; cbn; lia.
  - intros [= <-]. unfold removed. destruct (_ && _); cbn; lia.
Qed.

(** The cursor of a stored session is never negative: it starts at 0 and is
    only ever incremented or set back to 0. This needs no assumption on the
    ids drawn. *)
Lemma served_cursor_nonneg qs : ∀ k s,
  serve qs ∅ !! k = Some s → (0 ≤ current_turn s)%Z.
Proof.
  induction qs as [|q qs IH] using rev_ind; intros k s Hk.
  - change (serve [] ∅) with (∅ : gmap string CombatState) in Hk.
    by rewrite lookup_empty in Hk.
  - rewrite serve_snoc in Hk.
    apply state_after_lookup in Hk
      as [(u & n & r & -> & -> & ->)|[(s0 & Hs0 & _ & Hafter)|Hsame]].
    + done.
    + eapply session_after_cursor_nonneg; [|exact Hafter]. by eapply IH.
    + by eapply IH.
Qed.

Lemma next_turn_restores_range now request σ s :
  σ !! ntr_combat_id request = Some s → combatants s ≠ [] →
  (0 ≤ current_turn s)%Z →
  ∃ s', next_turn now request σ
          = (<[ntr_combat_id request := s']> σ, inr s')
    ∧ combatants s' = combatants s
    ∧ (0 ≤ current_turn s' < len (combatants s'))%Z
    ∧ ((len (combatants s) ≤ current_turn s + 1)%Z → current_turn s' = 0%Z).
Proof.
  intros Hs Hne Hlow. exists (advanced now s).
  split; [by apply next_turn_found|].
  rewrite advanced_combatants. split; [done|].
  assert (0 < len (combatants s))%Z as Hpos.
  { unfold len. destruct (combatants s); [done | cbn [length]; lia]. }
  destruct (Z_lt_le_dec (current_turn s + 1) (len (combatants s))) as [Hlt|Hle].
  - destruct (advanced_no_wrap now s Hlt) as [-> _]. split; lia.
  - destruct (advanced_wrap now s Hle) as [-> _]. split; [lia | done].
Qed.

(** C10. For every session with at least one combatant that the process can
    hold, after any trace of requests whatsoever (also one in which an id is
    drawn twice, the only way the cursor gets past the end of the order),
    one [next_turn] succeeds and leaves [current_turn] in
    [0, len combatants): an incremented value at or past the number of
    combatants wraps to 0. The same holds from any dictionary whose session
    has a cursor that is not negative, in range or not. *)
Theorem C10_next_turn_restores_range :
  (∀ qs now request s,
     serve qs ∅ !! ntr_combat_id request = Some s → combatants s ≠ [] →
     ∃ s', next_turn now request (serve qs ∅)
             = (<[ntr_combat_id request := s']> (serve qs ∅), inr s')
       ∧ combatants s' = combatants s
       ∧ (0 ≤ current_turn s' < len (combatants s'))%Z
       ∧ ((len (combatants s) ≤ current_turn s + 1)%Z →
          current_turn s' = 0%Z))
  ∧ (∀ now request σ s,
       σ !! ntr_combat_id request = Some s → combatants s ≠ [] →
       (0 ≤ current_turn s)%Z →
       ∃ s', next_turn now request σ
               = (<[ntr_combat_id request := s']> σ, inr s')
         ∧ combatants s' = combatants s
         ∧ (0 ≤ current_turn s' < len (combatants s'))%Z
         ∧ ((len (combatants s) ≤ current_turn s + 1)%Z →
            current_turn s' = 0%Z)).
Proof.
  split.
  - intros qs now request s Hs Hne.
    apply next_turn_restores_range; [done..|]. by eapply served_cursor_nonneg.
  - intros now request σ s. apply next_turn_restores_range.
Qed.

Lemma C10_next_turn_restores_range_witness :
  serve standoff ∅ !! "s1" = Some standoff_session
  ∧ combatants standoff_session ≠ []
  ∧ ∃ s', next_turn "t6" (mkNextTurnRequest "s1") (serve standoff ∅)
          = (<["s1" := s']> (serve standoff ∅), inr s')
      ∧ combatants s' = combatants standoff_session
      ∧ (0 ≤ current_turn s' < len (combatants s'))%Z
      ∧ ((len (combatants standoff_session) ≤ current_turn standoff_session + 1)%Z →
         current_turn s' = 0%Z).
Proof.
  assert (serve standoff ∅ !! "s1" = Some standoff_session) as Hs
    by (vm_compute; reflexivity).
  assert (combatants standoff_session ≠ []) as Hne by (cbn; discriminate).
  split; [exact Hs|]. split; [exact Hne|].
  exact (proj1 C10_next_turn_restores_range standoff "t6"
           (mkNextTurnRequest "s1") standoff_session Hs Hne).
Defined.

(** ** Creating, fetching, listing and deleting sessions *)

(** X1. [create_combat] never fails. The session it returns is stored under
    the drawn id, [get_combat] returns it, [next_turn] on it is refused
    because it has no combatants yet, and every other key of the dictionary
    is as before. *)
Theorem X1_create_combat_then_get uuid now request σ :
  ∃ s, create_combat uuid now request σ = (<[uuid := s]> σ, inr s)
    ∧ get_combat uuid (<[uuid := s]> σ) = (<[uuid := s]> σ, inr s)
    ∧ (∀ now' r, ntr_combat_id r = uuid →
         next_turn now' r (<[uuid := s]> σ) = (<[uuid := s]> σ, inl no_combatants))
    ∧ (∀ k, k ≠ uuid → <[uuid := s]> σ !! k = σ !! k).
Proof.
  exists (new_combat uuid now request). split; [apply create_combat_run|].
  split; [apply get_combat_found, lookup_insert_eq|]. split.
  - intros now' r Hr. apply next_turn_empty with (new_combat uuid now request);
      [rewrite Hr; apply lookup_insert_eq | done].
  - intros k Hk. by apply lookup_insert_ne.
Qed.

(** X2. [delete_combat] on a stored session removes it and nothing else:
    afterwards every request that addresses the session, a second delete
    included, is answered with 404 "Combat not found" and changes nothing,
    while every other key is as before. *)
Theorem X2_delete_combat_then_not_found k σ s :
  σ !! k = Some s →
  ∃ σ', delete_combat k σ = (σ', inr "Combat deleted successfully")
    ∧ σ' !! k = None
    ∧ (∀ k', k' ≠ k → σ' !! k' = σ !! k')
    ∧ (∀ q, target q = Some k → dispatch q σ' = (σ', inl not_found_combat)).
Proof.
  intros Hs. exists (delete k σ). split; [by eapply delete_combat_found|].
  split; [apply lookup_delete_eq|]. split; [intros k' Hk'; by apply lookup_delete_ne|].
  intros q Hq. pose proof (dispatch_failure q (delete k σ)) as H.
  unfold failure in H. by rewrite Hq, lookup_delete_eq in H.
Qed.

Lemma X2_delete_combat_then_not_found_witness :
  serve muster ∅ !! "s1" = Some muster_session
  ∧ ∃ σ', delete_combat "s1" (serve muster ∅) = (σ', inr "Combat deleted successfully")
      ∧ σ' !! "s1" = None
      ∧ (∀ k', k' ≠ "s1" → σ' !! k' = serve muster ∅ !! k')
      ∧ (∀ q, target q = Some "s1" → dispatch q σ' = (σ', inl not_found_combat)).
Proof.
  assert (serve muster ∅ !! "s1" = Some muster_session) as Hs
    by (vm_compute; reflexivity).
  split; [exact Hs|].
  exact (X2_delete_combat_then_not_found "s1" (serve muster ∅) muster_session Hs).
Defined.

Lemma omap_lookup_key_order (order : list string) (σ : gmap string CombatState) :
  key_order order σ →
  omap (λ k, σ !! k) order ≡ₚ (map_to_list σ).*2.
Proof.
  intros [Hnd Hdom].
  assert (order ≡ₚ (map_to_list σ).*1) as ->.
  { apply NoDup_Permutation; [done | apply NoDup_fst_map_to_list |].
    intros k. rewrite Hdom, list_elem_of_fmap. split.
    - intros [s Hs]. exists (k, s). split; [done|]. by apply elem_of_map_to_list.
    - intros ([k' s] & -> & Hin). apply elem_of_map_to_list in Hin. by exists s. }
  assert (∀ l : list (string * CombatState),
            (∀ k s, (k, s) ∈ l → σ !! k = Some s) →
            omap (λ k, σ !! k) l.*1 = l.*2) as Hgen.
  { induction l as [|[k s] l IH]; intros Hl; [done|]. cbn.
    rewrite (Hl k s) by left. cbn. f_equal. apply IH.
    intros k' s' Hin. apply Hl. by right. }
  rewrite Hgen; [done|]. intros k s Hin. by apply elem_of_map_to_list.
Qed.

Lemma omap_lookup_index (order : list string) (σ : gmap string CombatState) :
  (∀ k, k ∈ order → is_Some (σ !! k)) →
  ∀ i k, order !! i = Some k → omap (λ k, σ !! k) order !! i = σ !! k.
Proof.
  induction order as [|k0 order IH]; intros Hall i k Hi; [done|].
  destruct (Hall k0) as [s0 Hk0]; [left|]. cbn. rewrite Hk0. cbn.
  destruct i as [|i]; cbn in Hi |- *.
  - by injection Hi as <-.
  - apply IH; [|done]. intros k' Hk'. apply Hall. by right.
Qed.

(** X3. [list_combats] never fails and does not touch the dictionary.
    Whatever order the dict enumerates its keys in, the list it returns
    holds the stored sessions and only them, one entry per key, in that
    key order. *)
Theorem X3_list_combats_all order σ :
  key_order order σ →
  ∃ l, list_combats order σ = (σ, inr l)
    ∧ length l = size σ
    ∧ l ≡ₚ (map_to_list σ).*2
    ∧ (∀ s, s ∈ l ↔ ∃ k, σ !! k = Some s)
    ∧ (∀ i k, order !! i = Some k → l !! i = σ !! k).
Proof.
  intros Hord. exists (omap (λ k, σ !! k) order). split; [done|].
  pose proof (omap_lookup_key_order order σ Hord) as Hperm.
  split; [by rewrite Hperm, length_fmap, length_map_to_list|]. split; [done|]. split.
  - intros s. rewrite Hperm, list_elem_of_fmap. split.
    + intros ([k s'] & -> & Hin). exists k. by apply elem_of_map_to_list.
    + intros [k Hk]. exists (k, s). split; [done|]. by apply elem_of_map_to_list.
  - destruct Hord as [_ Hdom]. apply omap_lookup_index.
    intros k Hk. by apply Hdom.
Qed.

Lemma key_order_singleton k (s : CombatState) : key_order [k] {[k := s]}.
Proof.
  split; [apply NoDup_singleton|]. intros k'.
  rewrite list_elem_of_singleton. unfold is_Some.
  setoid_rewrite lookup_singleton_Some.
  split; [intros ->; by exists s | by intros [s' [-> _]]].
Defined.

Lemma X3_list_combats_all_witness :
  key_order ["s1"] {["s1" := muster_session]}
  ∧ ∃ l, list_combats ["s1"] {["s1" := muster_session]}
           = ({["s1" := muster_session]}, inr l)
      ∧ length l = size ({["s1" := muster_session]} : gmap string CombatState)
      ∧ l ≡ₚ (map_to_list ({["s1" := muster_session]} : gmap string CombatState)).*2
      ∧ (∀ s, s ∈ l ↔ ∃ k, ({["s1" := muster_session]} : gmap string CombatState) !! k = Some s)
      ∧ (∀ i k, ["s1"] !! i = Some k →
           l !! i = ({["s1" := muster_session]} : gmap string CombatState) !! k).
Proof.
  split; [apply key_order_singleton|].
  exact (X3_list_combats_all ["s1"] {["s1" := muster_session]}
           (key_order_singleton "s1" muster_session)).
Defined.

(** ** What a request leaves alone *)

Lemma state_after_other q σ k :
  target q ≠ Some k → (∀ uuid now r, q = CreateCombat uuid now r → uuid ≠ k) →
  state_after q σ !! k = σ !! k.
Proof.
  intros Ht Hc.
  assert (∀ k0, target q = Some k0 →
    match σ !! k0 with
    | Some s => match session_after q s with
                | Some s'' => <[k0 := s'']> σ | None => σ end
    | None => σ end !! k = σ !! k) as Hgen.
  { intros k0 Hk0. destruct (σ !! k0) as [s|]; [|done].
    destruct (session_after q s); [|done].
    apply lookup_insert_ne. intros ->. by apply Ht. }
  destruct q as [u n r|k0|u n r|n r|n r|n r|n r|n k0 cid|k0];
    cbn [state_after]; try by apply Hgen.
  - apply lookup_insert_ne. by eapply Hc.
  - apply lookup_delete_ne. intros ->. by apply Ht.
Qed.

(** X4. A request changes at most the session it addresses (or the one it
    creates): every other key of the dictionary holds what it held before,
    whether the request succeeds or raises. *)
Theorem X4_other_sessions_untouched q σ k :
  target q ≠ Some k → (∀ uuid now r, q = CreateCombat uuid now r → uuid ≠ k) →
  (dispatch q σ).1 !! k = σ !! k.
Proof. intros Ht Hc. rewrite dispatch_state. by apply state_after_other. Qed.

Lemma X4_other_sessions_untouched_witness :
  target (RemoveCombatant "t7" "s2" "a") ≠ Some "s1"
  ∧ (∀ uuid now r, RemoveCombatant "t7" "s2" "a" = CreateCombat uuid now r →
       uuid ≠ "s1")
  ∧ (dispatch (RemoveCombatant "t7" "s2" "a") (serve skirmish ∅)).1 !! "s1"
    = serve skirmish ∅ !! "s1".
Proof.
  assert (target (RemoveCombatant "t7" "s2" "a") ≠ Some "s1") as Ht
    by (cbn; discriminate).
  assert (∀ uuid now r, RemoveCombatant "t7" "s2" "a" = CreateCombat uuid now r →
            uuid ≠ "s1") as Hc by (intros; discriminate).
  split; [exact Ht|]. split; [exact Hc|].
  exact (X4_other_sessions_untouched _ (serve skirmish ∅) "s1" Ht Hc).
Defined.

Lemma session_after_identity q s s' :
  session_after q s = Some s' →
  cs_id s' = cs_id s ∧ cs_name s' = cs_name s
  ∧ is_active s' = is_active s ∧ created_at s' = created_at s.
Proof.
  destruct q as [u n r|k|u n r|n r|n r|n r|n r|n k cid|k]; cbn;
    try discriminate.
  - by intros [= <-].
  - destruct (find_combatant _ _); [|discriminate]. by intros [= <-].
  - destruct (find_combatant _ _); [|discriminate]. by intros [= <-].
  - destruct (find_combatant _ _); [|discriminate]. by intros [= <-].
  - destruct (combatants s); [discriminate|]. intros [= <-].
    unfold advanced. by destruct (_ <=? _)%Z.
  - intros [= <-]. unfold removed. by destruct (_ && _).
Qed.

(** X5. The session a handler returns is the session it leaves in the
    dictionary under the key of the request: the drawn id for
    [create_combat], the addressed [combat_id] for all others. A following
    [get_combat] on that key returns the very same value, and where sessions
    are stored under their own id that key is the [id] of the returned
    session. *)
Theorem X5_response_is_stored q σ s :
  (dispatch q σ).2 = inr (RespState s) →
  ∃ k, response_key q = Some k
    ∧ (dispatch q σ).1 !! k = Some s
    ∧ get_combat k (dispatch q σ).1 = ((dispatch q σ).1, inr s)
    ∧ ((∀ k0 s0, σ !! k0 = Some s0 → cs_id s0 = k0) → cs_id s = k).
Proof.
  assert (∀ k (σ' : gmap string CombatState) s',
            response_key q = Some k → σ' !! k = Some s' →
            ((∀ k0 s0, σ !! k0 = Some s0 → cs_id s0 = k0) → cs_id s' = k) →
            ∃ k, response_key q = Some k ∧ σ' !! k = Some s'
              ∧ get_combat k σ' = (σ', inr s')
              ∧ ((∀ k0 s0, σ !! k0 = Some s0 → cs_id s0 = k0) → cs_id s' = k))
    as Hget.
  { intros k σ' s' Hq H Hid. exists k.
    split; [done|]. split; [done|]. split; [by apply get_combat_found | done]. }
  assert (∀ k s0 s', σ !! k = Some s0 → session_after q s0 = Some s' →
            (∀ k0 s1, σ !! k0 = Some s1 → cs_id s1 = k0) → cs_id s' = k) as Hid.
  { intros k s0 s' Hs0 Hafter Hall.
    destruct (session_after_identity q s0 s' Hafter) as [-> _]. by apply Hall. }
  destruct q as [u n r|k|u n r|n r|n r|n r|n r|n k cid|k];
    cbn [dispatch]; rewrite respond_run.
  - rewrite create_combat_run. cbn. intros [= <-].
    apply (Hget u); [done | apply lookup_insert_eq | done].
  - destruct (σ !! k) as [s0|] eqn:H;
      [rewrite (get_combat_found _ _ _ H) | by rewrite (get_combat_missing _ _ H)].
    cbn. intros [= <-]. apply (Hget k); [done | done |]. intros Hall. by apply Hall.
  - destruct (σ !! acr_combat_id r) as [s0|] eqn:H;
      [rewrite (add_combatant_found _ _ _ _ _ H)
      | by rewrite (add_combatant_missing _ _ _ _ H)].
    cbn. intros [= <-].
    apply (Hget (acr_combat_id r)); [done | apply lookup_insert_eq |].
    by apply (Hid _ s0).
  - destruct (σ !! uhr_combat_id r) as [s0|] eqn:H;
      [|by rewrite (update_hp_missing _ _ _ H)].
    destruct (find_combatant (uhr_combatant_id r) (combatants s0)) as [c|] eqn:Hc;
      [rewrite (update_hp_found _ _ _ _ _ H Hc)
      | by rewrite (update_hp_no_combatant _ _ _ _ H Hc)].
    cbn. intros [= <-].
    apply (Hget (uhr_combat_id r)); [done | apply lookup_insert_eq |].
    apply (Hid _ s0); [done|]. cbn. by rewrite Hc.
  - destruct (σ !! adr_combat_id r) as [s0|] eqn:H;
      [|by rewrite (add_condition_missing _ _ _ H)].
    destruct (find_combatant (adr_combatant_id r) (combatants s0)) as [c|] eqn:Hc;
      [rewrite (add_condition_found _ _ _ _ _ H Hc)
      | by rewrite (add_condition_no_combatant _ _ _ _ H Hc)].
    cbn. intros [= <-].
    apply (Hget (adr_combat_id r)); [done | apply lookup_insert_eq |].
    apply (Hid _ s0); [done|]. cbn. by rewrite Hc.
  - destruct (σ !! rcr_combat_id r) as [s0|] eqn:H;
      [|by rewrite (remove_condition_missing _ _ _ H)].
    destruct (find_combatant (rcr_combatant_id r) (combatants s0)) as [c|] eqn:Hc;
      [rewrite (remove_condition_found _ _ _ _ _ H Hc)
      | by rewrite (remove_condition_no_combatant _ _ _ _ H Hc)].
    cbn. intros [= <-].
    apply (Hget (rcr_combat_id r)); [done | apply lookup_insert_eq |].
    apply (Hid _ s0); [done|]. cbn. by rewrite Hc.
  - destruct (σ !! ntr_combat_id r) as [s0|] eqn:H;
      [|by rewrite (next_turn_missing _ _ _ H)].
    destruct (combatants s0) as [|c l] eqn:El;
      [by rewrite (next_turn_empty _ _ _ _ H El)|].
    rewrite (next_turn_found _ _ _ _ H) by by rewrite El.
    cbn. intros [= <-].
    apply (Hget (ntr_combat_id r)); [done | apply lookup_insert_eq |].
    apply (Hid _ s0); [done|]. cbn. by rewrite El.
  - destruct (σ !! k) as [s0|] eqn:H;
      [rewrite (remove_combatant_found _ _ _ _ _ H)
      | by rewrite (remove_combatant_missing _ _ _ _ H)].
    cbn. intros [= <-].
    apply (Hget k); [done | apply lookup_insert_eq |]. by apply (Hid _ s0).
  - destruct (σ !! k) as [s0|] eqn:H;
      [by rewrite (delete_combat_found _ _ _ H)
      | by rewrite (delete_combat_missing _ _ H)].
Qed.

(** X6. The only exceptions a request raises are the three
    [HTTPException]s of the handlers: 404 "Combat not found", 404
    "Combatant not found" and 400 "No combatants in initiative". The
    dictionary accesses behind the membership test never raise
    [KeyError]. *)
Theorem X6_only_http_errors q σ e :
  (dispatch q σ).2 = inl e →
  (e = not_found_combat ∨ e = not_found_combatant ∨ e = no_combatants)
  ∧ ∀ key, e ≠ KeyError key.
Proof.
  intros He. apply dispatch_raises in He.
  assert (e = not_found_combat ∨ e = not_found_combatant ∨ e = no_combatants)
    as Hcases.
  { unfold failure in He. destruct (target q) as [k|]; [|done].
    destruct (σ !! k) as [s|]; [|injection He as <-; auto].
    destruct (looked_up_combatant q) as [cid|].
    - destruct (find_combatant cid (combatants s)); [done|].
      injection He as <-. auto.
    - destruct q, (combatants s); try done. injection He as <-. auto. }
  split; [done|]. intros key ->. by destruct Hcases as [?|[?|?]].
Qed.

Lemma X5_response_is_stored_witness :
  (dispatch (NextTurn "t4" (mkNextTurnRequest "s1")) (serve muster ∅)).2
  = inr (RespState (advanced "t4" muster_session))
  ∧ ∃ k, response_key (NextTurn "t4" (mkNextTurnRequest "s1")) = Some k
      ∧ (dispatch (NextTurn "t4" (mkNextTurnRequest "s1")) (serve muster ∅)).1 !! k
        = Some (advanced "t4" muster_session)
      ∧ get_combat k
          (dispatch (NextTurn "t4" (mkNextTurnRequest "s1")) (serve muster ∅)).1
        = ((dispatch (NextTurn "t4" (mkNextTurnRequest "s1")) (serve muster ∅)).1,
           inr (advanced "t4" muster_session))
      ∧ ((∀ k0 s0, serve muster ∅ !! k0 = Some s0 → cs_id s0 = k0) →
         cs_id (advanced "t4" muster_session) = k).
Proof.
  assert ((dispatch (NextTurn "t4" (mkNextTurnRequest "s1")) (serve muster ∅)).2
          = inr (RespState (advanced "t4" muster_session))) as H
    by (vm_compute; reflexivity).
  split; [exact H|].
  exact (X5_response_is_stored _ _ _ H).
Defined.

Lemma X6_only_http_errors_witness :
  (dispatch (UpdateHP "t4" (mkUpdateHPRequest "s1" "zz" 3)) (serve muster ∅)).2
  = inl not_found_combatant
  ∧ (not_found_combatant = not_found_combat
     ∨ not_found_combatant = not_found_combatant
     ∨ not_found_combatant = no_combatants)
  ∧ ∀ key, not_found_combatant ≠ KeyError key.
Proof.
  assert ((dispatch (UpdateHP "t4" (mkUpdateHPRequest "s1" "zz" 3)) (serve muster ∅)).2
          = inl not_found_combatant) as H by (vm_compute; reflexivity).
  split; [exact H|].
  exact (X6_only_http_errors _ _ _ H).
Defined.

(** X7. No request changes the id, the name, the active flag or the creation
    time of a session that exists before and after it. *)
Theorem X7_identity_fields_kept q σ k s s' :
  σ !! k = Some s → (dispatch q σ).1 !! k = Some s' →
  (∀ uuid now r, q = CreateCombat uuid now r → uuid ≠ k) →
  cs_id s' = cs_id s ∧ cs_name s' = cs_name s
  ∧ is_active s' = is_active s ∧ created_at s' = created_at s.
Proof.
  intros Hs Hs' Hc. rewrite dispatch_state in Hs'.
  apply state_after_lookup in Hs'
    as [(u & n & r & -> & -> & ->)|[(s0 & Hs0 & _ & Hafter)|Hsame]].
  - by destruct (Hc u n r).
  - rewrite Hs in Hs0. injection Hs0 as <-. by eapply session_after_identity.
  - rewrite Hs in Hsame. by injection Hsame as <-.
Qed.

Lemma X7_identity_fields_kept_witness :
  serve standoff ∅ !! "s1" = Some standoff_session
  ∧ (dispatch (RemoveCombatant "t6" "s1" "b") (serve standoff ∅)).1 !! "s1"
    = Some skirmish_session
  ∧ cs_id skirmish_session = cs_id standoff_session
  ∧ cs_name skirmish_session = cs_name standoff_session
  ∧ is_active skirmish_session = is_active standoff_session
  ∧ created_at skirmish_session = created_at standoff_session.
Proof.
  assert (serve standoff ∅ !! "s1" = Some standoff_session) as Hs
    by (vm_compute; reflexivity).
  assert ((dispatch (RemoveCombatant "t6" "s1" "b") (serve standoff ∅)).1 !! "s1"
          = Some skirmish_session) as Hs' by (vm_compute; reflexivity).
  split; [exact Hs|]. split; [exact Hs'|].
  apply (X7_identity_fields_kept _ _ _ _ _ Hs Hs'). intros; discriminate.
Defined.

(** ** Induction along a trace, with the key in view *)

Section KeyedInvariant.
Variable J : list Request → string → CombatState → Prop.

Hypothesis J_mono : ∀ qs q k s, J qs k s → J (qs ++ [q])%list k s.
Hypothesis J_new : ∀ qs uuid now r,
  uuid ∉ uuids qs →
  J (qs ++ [CreateCombat uuid now r])%list uuid (new_combat uuid now r).
Hypothesis J_step : ∀ qs q k s s',
  J qs k s → target q = Some k → (∀ u, u ∈ uuids [q] → u ∉ uuids qs) →
  session_after q s = Some s' → J (qs ++ [q])%list k s'.

Lemma trace_invariant_keyed qs :
  NoDup (uuids qs) →
  ∀ k s, serve qs ∅ !! k = Some s → J qs k s.
Proof.
  induction qs as [|q qs IH] using rev_ind; intros Hnd k s Hk.
  - change (serve [] ∅) with (∅ : gmap string CombatState) in Hk.
    by rewrite lookup_empty in Hk.
  - rewrite serve_snoc in Hk. rewrite uuids_snoc in Hnd.
    apply NoDup_app in Hnd as (Hnd & Hfresh & _).
    specialize (IH Hnd).
    assert (∀ u, u ∈ uuids [q] → u ∉ uuids qs) as Hfresh'.
    { intros u Hu Hin. by eapply Hfresh. }
    apply state_after_lookup in Hk
      as [(u & n & r & -> & -> & ->)|[(s0 & Hs0 & Ht & Hafter)|Hsame]].
    + apply J_new, Hfresh'. cbn. left.
    + eapply J_step; eauto.
    + apply J_mono. eauto.
Qed.
End KeyedInvariant.

(** X8. In every state the process can reach, a session is stored under its
    own id, is active, is in round 1 or later, and none of its combatants
    carries notes: no handler clears [is_active], lowers [round_number] or
    writes [notes]. *)
Theorem X8_session_well_formed σ k s :
  reachable σ → σ !! k = Some s →
  cs_id s = k ∧ is_active s = true ∧ (1 ≤ round_number s)%Z
  ∧ ∀ c, c ∈ combatants s → notes c = "".
Proof.
  intros (qs & Hnd & _ & ->) Hk.
  apply (trace_invariant_keyed
           (λ _ k s, cs_id s = k ∧ is_active s = true ∧ (1 ≤ round_number s)%Z
                     ∧ Forall (λ c, notes c = "") (combatants s)))
    in Hk; [by rewrite <- Forall_forall | done | | | done].
  - intros qs' u n r _. cbn. by repeat split.
  - intros qs' q k' s0 s' (Hid & Hact & Hround & Hnotes) _ _ Hafter.
    destruct (session_after_identity q s0 s' Hafter) as (-> & _ & -> & _).
    split; [done|]. split; [done|].
    destruct q as [u n r|k0|u n r|n r|n r|n r|n r|n k0 cid|k0]; cbn in Hafter;
      try discriminate.
    + injection Hafter as <-. split; [done|].
      rewrite with_combatant_combatants, sort_by_initiative_desc_perm.
      apply Forall_app. split; [done|]. by apply Forall_singleton.
    + destruct (find_combatant _ _); [|discriminate]. injection Hafter as <-.
      split; [done|]. rewrite with_hp_combatants. by apply Forall_alter_combatant.
    + destruct (find_combatant _ _); [|discriminate]. injection Hafter as <-.
      split; [done|]. rewrite with_condition_combatants.
      apply Forall_alter_combatant; [|done].
      intros d. unfold put_condition. by destruct (str_in _ _).
    + destruct (find_combatant _ _); [|discriminate]. injection Hafter as <-.
      split; [done|]. rewrite without_condition_combatants.
      apply Forall_alter_combatant; [|done].
      intros d. unfold drop_condition. by destruct (str_in _ _).
    + destruct (combatants s0) as [|c l] eqn:El; [discriminate|].
      injection Hafter as <-. rewrite advanced_combatants, El. split; [|done].
      unfold advanced. destruct (_ <=? _)%Z; cbn; lia.
    + injection Hafter as <-. rewrite removed_combatants. split.
      * unfold removed. by destruct (_ && _).
      * rewrite Forall_forall in Hnotes |- *. intros x Hx. apply Hnotes.
        by eapply sublist_subseteq; [apply without_combatant_sublist|].
Qed.

Lemma X8_session_well_formed_witness :
  reachable (serve skirmish ∅)
  ∧ serve skirmish ∅ !! "s1" = Some skirmish_session
  ∧ cs_id skirmish_session = "s1" ∧ is_active skirmish_session = true
  ∧ (1 ≤ round_number skirmish_session)%Z
  ∧ ∀ c, c ∈ combatants skirmish_session → notes c = "".
Proof.
  assert (serve skirmish ∅ !! "s1" = Some skirmish_session) as Hs
    by (vm_compute; reflexivity).
  split; [exact skirmish_reachable|]. split; [exact Hs|].
  exact (X8_session_well_formed _ _ _ skirmish_reachable Hs).
Defined.

(** ** Combatant ids *)

Lemma adds_to_snoc k qs q :
  adds_to k (qs ++ [q]) = (adds_to k qs ++ adds_to k [q])%list.
Proof. unfold adds_to. by rewrite bind_app. Qed.

Lemma adds_to_cons k q qs :
  adds_to k (q :: qs) = (adds_to k [q] ++ adds_to k qs)%list.
Proof. unfold adds_to. by rewrite !bind_cons, app_nil_r. Qed.

Lemma uuids_cons q qs : uuids (q :: qs) = (uuids [q] ++ uuids qs)%list.
Proof. unfold uuids. by rewrite !bind_cons, app_nil_r. Qed.

Lemma adds_to_uuids_one k q : adds_to k [q] ⊆ uuids [q].
Proof.
  unfold adds_to, uuids. rewrite !bind_singleton.
  destruct q; try apply list_subseteq_nil.
  case_decide; [done | apply list_subseteq_nil].
Qed.

Lemma adds_to_uuids k qs : adds_to k qs ⊆ uuids qs.
Proof.
  induction qs as [|q qs IH]; [done|].
  rewrite adds_to_cons, uuids_cons.
  intros u [Hu|Hu]%elem_of_app; apply elem_of_app;
    [left; by apply (adds_to_uuids_one k) | right; by apply IH].
Qed.

Lemma adds_to_one_session qs : ∀ k1 k2 u,
  NoDup (uuids qs) → u ∈ adds_to k1 qs → u ∈ adds_to k2 qs → k1 = k2.
Proof.
  induction qs as [|q qs IH]; intros k1 k2 u Hnd H1 H2.
  { by apply elem_of_nil in H1. }
  rewrite uuids_cons in Hnd. rewrite adds_to_cons in H1, H2.
  apply NoDup_app in Hnd as (_ & Hfresh & Hnd).
  apply elem_of_app in H1 as [H1|H1]; apply elem_of_app in H2 as [H2|H2].
  - unfold adds_to in H1, H2. rewrite bind_singleton in H1, H2.
    destruct q; try by apply elem_of_nil in H1.
    repeat case_decide; try congruence;
      (by apply elem_of_nil in H1) || (by apply elem_of_nil in H2).
  - exfalso. apply (Hfresh u);
      [by apply adds_to_uuids_one in H1 | by apply adds_to_uuids in H2].
  - exfalso. apply (Hfresh u);
      [by apply adds_to_uuids_one in H2 | by apply adds_to_uuids in H1].
  - by eapply IH.
Qed.

Lemma combatants_owned qs k s :
  NoDup (uuids qs) → serve qs ∅ !! k = Some s →
  c_id <$> combatants s ⊆ adds_to k qs.
Proof.
  intros Hnd Hk.
  apply (trace_invariant_keyed (λ qs k s, c_id <$> combatants s ⊆ adds_to k qs))
    in Hk; [done | | | | done].
  - intros qs' q k' s0 H u Hu. rewrite adds_to_snoc. apply elem_of_app. auto.
  - intros qs' u n r _. apply list_subseteq_nil.
  - intros qs' q k' s0 s' H Ht _ Hafter. rewrite adds_to_snoc.
    assert (c_id <$> combatants s' ⊆ c_id <$> combatants s0 →
            c_id <$> combatants s' ⊆ (adds_to k' qs' ++ adds_to k' [q])%list)
      as Hsub.
    { intros Hs u Hu. apply elem_of_app. left. by apply H, Hs. }
    destruct q as [u n r|k0|u n r|n r|n r|n r|n r|n k0 cid|k0]; cbn in Hafter;
      try discriminate.
    + injection Hafter as <-. injection Ht as Ht.
      rewrite with_combatant_combatants, sort_by_initiative_desc_perm, fmap_app.
      cbn. rewrite decide_True by done. cbn.
      intros x [Hx|Hx]%elem_of_app; apply elem_of_app; auto.
    + destruct (find_combatant _ _); [|discriminate]. injection Hafter as <-.
      apply Hsub. by rewrite with_hp_combatants, alter_combatant_fmap.
    + destruct (find_combatant _ _); [|discriminate]. injection Hafter as <-.
      apply Hsub. rewrite with_condition_combatants, alter_combatant_fmap; [done|].
      apply put_condition_same.
    + destruct (find_combatant _ _); [|discriminate]. injection Hafter as <-.
      apply Hsub. rewrite without_condition_combatants, alter_combatant_fmap; [done|].
      apply drop_condition_same.
    + destruct (combatants s0) as [|c l] eqn:El; [discriminate|].
      injection Hafter as <-. apply Hsub. by rewrite advanced_combatants, El.
    + injection Hafter as <-. apply Hsub. rewrite removed_combatants.
      apply sublist_subseteq, fmap_sublist, without_combatant_sublist.
Qed.

(** X9. In every state the process can reach, the combatants of a session
    have pairwise distinct ids, and no id occurs in two sessions: a
    combatant id names at most one combatant of the whole dictionary. *)
Theorem X9_combatant_ids_unique σ :
  reachable σ →
  (∀ k s, σ !! k = Some s → NoDup (c_id <$> combatants s))
  ∧ (∀ k1 k2 s1 s2 c1 c2,
       σ !! k1 = Some s1 → σ !! k2 = Some s2 →
       c1 ∈ combatants s1 → c2 ∈ combatants s2 →
       c_id c1 = c_id c2 → k1 = k2).
Proof.
  intros (qs & Hnd & _ & ->). split.
  - intros k s Hk.
    assert (cursor_inv (uuids qs) s) as (_ & H & _); [|done].
    apply (trace_invariant (λ _, True) cursor_inv) with (k := k);
      [| | |done|by apply Forall_true|done].
    + intros h h' s0 (Hsub & ? & ?). split; [|done].
      intros x Hx. apply elem_of_app. auto.
    + intros h u n r _. unfold cursor_inv, len. cbn.
      split; [apply list_subseteq_nil | split; [constructor | lia]].
    + intros h q s0 s' _. apply cursor_inv_step.
  - intros k1 k2 s1 s2 c1 c2 H1 H2 Hc1 Hc2 Hid.
    apply (adds_to_one_session qs k1 k2 (c_id c1) Hnd).
    + apply (combatants_owned qs k1 s1 Hnd H1), list_elem_of_fmap. eauto.
    + apply (combatants_owned qs k2 s2 Hnd H2), list_elem_of_fmap. eauto.
Qed.

Lemma X9_combatant_ids_unique_witness :
  reachable (serve skirmish ∅)
  ∧ (∀ k s, serve skirmish ∅ !! k = Some s → NoDup (c_id <$> combatants s))
  ∧ (∀ k1 k2 s1 s2 c1 c2,
       serve skirmish ∅ !! k1 = Some s1 → serve skirmish ∅ !! k2 = Some s2 →
       c1 ∈ combatants s1 → c2 ∈ combatants s2 →
       c_id c1 = c_id c2 → k1 = k2).
Proof.
  split; [exact skirmish_reachable|].
  exact (X9_combatant_ids_unique _ skirmish_reachable).
Defined.

(** ** Writes to one combatant *)

(** The write through the reference found by [next(...)] replaces one
    element of the sequence: the first one with the id. *)
Lemma alter_combatant_insert f cid l c :
  find_combatant cid l = Some c →
  ∃ i, l !! i = Some c
    ∧ alter_combatant f cid l = <[i := f c]> l
    ∧ ∀ j d, (j < i)%nat → l !! j = Some d → c_id d ≠ cid.
Proof.
  induction l as [|d l IH]; cbn; [done|].
  destruct (String.eqb (c_id d) cid) eqn:E.
  - intros [= ->]. exists 0%nat. split; [done|]. split; [done|]. intros j ?; lia.
  - intros Hc. destruct (IH Hc) as (i & Hi & Hl & Hbefore).
    exists (S i). split; [done|]. split; [by rewrite Hl|].
    intros [|j] d' Hj Hd; cbn in Hd.
    + injection Hd as <-. by apply String.eqb_neq.
    + apply (Hbefore j); [lia | done].
Qed.

(** X10. [update_hp] on an existing combatant rewrites exactly one element
    of the session's sequence, the first one carrying the id, and of it only
    [hp_current]; order, length, cursor and round number stay as they are. *)
Theorem X10_update_hp_touches_one now request σ s c :
  σ !! uhr_combat_id request = Some s →
  find_combatant (uhr_combatant_id request) (combatants s) = Some c →
  ∃ s' i,
    update_hp now request σ = (<[uhr_combat_id request := s']> σ, inr s')
    ∧ combatants s !! i = Some c
    ∧ (∀ j d, (j < i)%nat → combatants s !! j = Some d →
         c_id d ≠ uhr_combatant_id request)
    ∧ combatants s'
      = <[i := set_hp_current
                  (Z.max 0 (Z.min (hp_current c + hp_change request) (hp_max c))) c]>
          (combatants s)
    ∧ current_turn s' = current_turn s ∧ round_number s' = round_number s
    ∧ updated_at s' = now.
Proof.
  intros Hs Hc.
  destruct (alter_combatant_insert (clamp_hp (hp_change request)) _ _ _ Hc)
    as (i & Hi & Hl & Hbefore).
  exists (with_hp now request s), i.
  split; [by eapply update_hp_found|]. split; [done|]. split; [done|].
  by rewrite with_hp_combatants, Hl.
Qed.

Lemma X10_update_hp_touches_one_witness :
  serve muster ∅ !! "s1" = Some muster_session
  ∧ find_combatant "a" (combatants muster_session) = Some skirmish_combatant
  ∧ ∃ s' i,
      update_hp "t4" (mkUpdateHPRequest "s1" "a" (-3)) (serve muster ∅)
        = (<["s1" := s']> (serve muster ∅), inr s')
      ∧ combatants muster_session !! i = Some skirmish_combatant
      ∧ (∀ j d, (j < i)%nat → combatants muster_session !! j = Some d →
           c_id d ≠ "a")
      ∧ combatants s'
        = <[i := set_hp_current
                    (Z.max 0 (Z.min (hp_current skirmish_combatant + -3)
                                    (hp_max skirmish_combatant)))
                    skirmish_combatant]>
            (combatants muster_session)
      ∧ current_turn s' = current_turn muster_session
      ∧ round_number s' = round_number muster_session
      ∧ updated_at s' = "t4".
Proof.
  assert (serve muster ∅ !! "s1" = Some muster_session) as Hs
    by (vm_compute; reflexivity).
  assert (find_combatant "a" (combatants muster_session) = Some skirmish_combatant)
    as Hc by (vm_compute; reflexivity).
  split; [exact Hs|]. split; [exact Hc|].
  exact (X10_update_hp_touches_one "t4" (mkUpdateHPRequest "s1" "a" (-3))
           (serve muster ∅) muster_session skirmish_combatant Hs Hc).
Defined.

Lemma list_remove_first_absent x (l : list string) :
  x ∉ l → list_remove_first x l = l.
Proof.
  induction l as [|y l IH]; [done|]. rewrite not_elem_of_cons. intros [Hne Hl].
  cbn. destruct (String.eqb y x) eqn:E; [apply String.eqb_eq in E; congruence|].
  by rewrite IH.
Qed.

(** [l.remove(x)] deletes the position of the first occurrence of [x]. *)
Lemma list_remove_first_delete x (l : list string) : ∀ j,
  l !! j = Some x → (∀ j', (j' < j)%nat → l !! j' ≠ Some x) →
  list_remove_first x l = delete j l.
Proof.
  induction l as [|y l IH]; intros j Hj Hfirst; [done|]. cbn.
  destruct (String.eqb y x) eqn:E.
  - apply String.eqb_eq in E as ->. destruct j as [|j]; [done|].
    by destruct (Hfirst 0%nat); [lia|].
  - apply String.eqb_neq in E. destruct j as [|j]; cbn in Hj; [congruence|].
    cbn. f_equal. apply IH; [done|]. intros j' Hj'. apply (Hfirst (S j')). lia.
Qed.

(** X11. [add_condition] and [remove_condition] on an existing combatant
    rewrite exactly one element of the sequence, the first one carrying the
    id, and of it only [conditions]. [add_condition] appends the label at
    the end unless the combatant carries it already; [remove_condition]
    deletes the position of the first occurrence of the label and leaves
    the list alone when the label does not occur. Hit points, order, cursor
    and round number stay as they are. *)
Theorem X11_condition_touches_one :
  (∀ now request σ s c,
     σ !! adr_combat_id request = Some s →
     find_combatant (adr_combatant_id request) (combatants s) = Some c →
     ∃ s' i,
       add_condition now request σ = (<[adr_combat_id request := s']> σ, inr s')
       ∧ combatants s !! i = Some c
       ∧ (∀ j d, (j < i)%nat → combatants s !! j = Some d →
            c_id d ≠ adr_combatant_id request)
       ∧ combatants s'
         = <[i := set_conditions
                    (if decide (adr_condition request ∈ conditions c)
                     then conditions c
                     else (conditions c ++ [adr_condition request])%list) c]>
             (combatants s)
       ∧ current_turn s' = current_turn s ∧ round_number s' = round_number s)
  ∧ (∀ now request σ s c,
       σ !! rcr_combat_id request = Some s →
       find_combatant (rcr_combatant_id request) (combatants s) = Some c →
       ∃ s' i labels,
         remove_condition now request σ
           = (<[rcr_combat_id request := s']> σ, inr s')
         ∧ combatants s !! i = Some c
         ∧ (∀ j d, (j < i)%nat → combatants s !! j = Some d →
              c_id d ≠ rcr_combatant_id request)
         ∧ combatants s' = <[i := set_conditions labels c]> (combatants s)
         ∧ (rcr_condition request ∉ conditions c → labels = conditions c)
         ∧ (∀ j, conditions c !! j = Some (rcr_condition request) →
              (∀ j', (j' < j)%nat →
                 conditions c !! j' ≠ Some (rcr_condition request)) →
              labels = delete j (conditions c))
         ∧ current_turn s' = current_turn s ∧ round_number s' = round_number s).
Proof.
  split.
  - intros now request σ s c Hs Hc.
    destruct (alter_combatant_insert (put_condition (adr_condition request)) _ _ _ Hc)
      as (i & Hi & Hl & Hbefore).
    exists (with_condition now request s), i.
    split; [by eapply add_condition_found|]. split; [done|]. split; [done|].
    rewrite with_condition_combatants, Hl. split; [|done]. f_equal.
    unfold put_condition.
    destruct (str_in (adr_condition request) (conditions c)) eqn:E.
    + apply str_in_elem_of in E. rewrite decide_True by done. by destruct c.
    + rewrite decide_False; [done|]. intros Hin%str_in_elem_of. congruence.
  - intros now request σ s c Hs Hc.
    destruct (alter_combatant_insert (drop_condition (rcr_condition request)) _ _ _ Hc)
      as (i & Hi & Hl & Hbefore).
    exists (without_condition now request s), i,
      (list_remove_first (rcr_condition request) (conditions c)).
    split; [by eapply remove_condition_found|]. split; [done|]. split; [done|].
    rewrite without_condition_combatants, Hl.
    split; [|split; [apply list_remove_first_absent
                    |split; [apply list_remove_first_delete | done]]].
    f_equal. unfold drop_condition.
    destruct (str_in (rcr_condition request) (conditions c)) eqn:E; [done|].
    rewrite list_remove_first_absent; [by destruct c|].
    intros Hin%str_in_elem_of. congruence.
Qed.

Lemma X11_condition_touches_one_witness :
  serve afflicted ∅ !! "s1" = Some afflicted_session
  ∧ find_combatant "a" (combatants afflicted_session) = Some afflicted_combatant
  ∧ conditions afflicted_combatant = ["Prone"; "Stunned"]
  ∧ ∃ s' i labels,
      remove_condition "t9" (mkRemoveConditionRequest "s1" "a" "Prone")
        (serve afflicted ∅)
        = (<["s1" := s']> (serve afflicted ∅), inr s')
      ∧ combatants afflicted_session !! i = Some afflicted_combatant
      ∧ (∀ j d, (j < i)%nat → combatants afflicted_session !! j = Some d →
           c_id d ≠ "a")
      ∧ combatants s'
        = <[i := set_conditions labels afflicted_combatant]>
            (combatants afflicted_session)
      ∧ ("Prone" ∉ conditions afflicted_combatant →
         labels = conditions afflicted_combatant)
      ∧ (∀ j, conditions afflicted_combatant !! j = Some "Prone" →
           (∀ j', (j' < j)%nat → conditions afflicted_combatant !! j' ≠ Some "Prone") →
           labels = delete j (conditions afflicted_combatant))
      ∧ current_turn s' = current_turn afflicted_session
      ∧ round_number s' = round_number afflicted_session.
Proof.
  assert (serve afflicted ∅ !! "s1" = Some afflicted_session) as Hs
    by (vm_compute; reflexivity).
  assert (find_combatant "a" (combatants afflicted_session) = Some afflicted_combatant)
    as Hc by (vm_compute; reflexivity).
  split; [exact Hs|]. split; [exact Hc|]. split; [reflexivity|].
  exact (proj2 X11_condition_touches_one "t9"
           (mkRemoveConditionRequest "s1" "a" "Prone") (serve afflicted ∅)
           afflicted_session afflicted_combatant Hs Hc).
Defined.

(** ** Changes that cancel *)

(** X12. Two [update_hp] calls on the same combatant amount to one call with
    the sum of the changes whenever the first result needed no clamping; in
    particular damage followed by equal healing gives back the hit points
    of a combatant that was within bounds. *)
Theorem X12_update_hp_composes now1 now2 now3 k cid d1 d2 σ s c :
  σ !! k = Some s → find_combatant cid (combatants s) = Some c →
  (0 ≤ hp_current c + d1 ≤ hp_max c)%Z →
  ∃ s1 s2 s3,
    update_hp now1 (mkUpdateHPRequest k cid d1) σ = (<[k := s1]> σ, inr s1)
    ∧ update_hp now2 (mkUpdateHPRequest k cid d2) (<[k := s1]> σ)
      = (<[k := s2]> (<[k := s1]> σ), inr s2)
    ∧ update_hp now3 (mkUpdateHPRequest k cid (d1 + d2)) σ
      = (<[k := s3]> σ, inr s3)
    ∧ combatants s2 = combatants s3
    ∧ ((0 ≤ hp_current c ≤ hp_max c)%Z → d2 = (- d1)%Z →
       combatants s2 = combatants s).
Proof.
  intros Hs Hc Hmid.
  pose (r1 := mkUpdateHPRequest k cid d1). pose (r2 := mkUpdateHPRequest k cid d2).
  pose (r3 := mkUpdateHPRequest k cid (d1 + d2)).
  assert (find_combatant cid (combatants (with_hp now1 r1 s))
          = Some (clamp_hp d1 c)) as Hc1.
  { rewrite with_hp_combatants. cbn [r1 uhr_combatant_id hp_change].
    by rewrite find_alter_combatant, Hc. }
  assert (combatants (with_hp now2 r2 (with_hp now1 r1 s))
          = alter_combatant (clamp_hp d2 ∘ clamp_hp d1) cid (combatants s)) as H12.
  { rewrite !with_hp_combatants. cbn [r1 r2 uhr_combatant_id hp_change].
    by rewrite alter_combatant_twice. }
  exists (with_hp now1 r1 s), (with_hp now2 r2 (with_hp now1 r1 s)), (with_hp now3 r3 s).
  split; [by apply (update_hp_found now1 r1 σ s c)|].
  split; [apply (update_hp_found now2 r2 _ (with_hp now1 r1 s) (clamp_hp d1 c));
          [apply lookup_insert_eq | done]|].
  split; [by apply (update_hp_found now3 r3 σ s c)|].
  rewrite H12. split.
  - rewrite with_hp_combatants. cbn [r3 uhr_combatant_id hp_change].
    apply alter_combatant_ext.
    intros c' Hc'. rewrite Hc in Hc'. injection Hc' as <-.
    unfold clamp_hp, set_hp_current. cbn. f_equal; lia.
  - intros Hrange ->. apply alter_combatant_id.
    intros c' Hc'. rewrite Hc in Hc'. injection Hc' as <-.
    destruct c. unfold clamp_hp, set_hp_current in *. cbn in *. f_equal. lia.
Qed.

Lemma X12_update_hp_composes_witness :
  serve muster ∅ !! "s1" = Some muster_session
  ∧ find_combatant "a" (combatants muster_session) = Some skirmish_combatant
  ∧ (0 ≤ hp_current skirmish_combatant + -4 ≤ hp_max skirmish_combatant)%Z
  ∧ ∃ s1 s2 s3,
      update_hp "t4" (mkUpdateHPRequest "s1" "a" (-4)) (serve muster ∅)
        = (<["s1" := s1]> (serve muster ∅), inr s1)
      ∧ update_hp "t5" (mkUpdateHPRequest "s1" "a" 4) (<["s1" := s1]> (serve muster ∅))
        = (<["s1" := s2]> (<["s1" := s1]> (serve muster ∅)), inr s2)
      ∧ update_hp "t6" (mkUpdateHPRequest "s1" "a" (-4 + 4)) (serve muster ∅)
        = (<["s1" := s3]> (serve muster ∅), inr s3)
      ∧ combatants s2 = combatants s3
      ∧ ((0 ≤ hp_current skirmish_combatant ≤ hp_max skirmish_combatant)%Z →
         4%Z = (- -4)%Z → combatants s2 = combatants muster_session).
Proof.
  assert (serve muster ∅ !! "s1" = Some muster_session) as Hs
    by (vm_compute; reflexivity).
  assert (find_combatant "a" (combatants muster_session) = Some skirmish_combatant)
    as Hc by (vm_compute; reflexivity).
  assert (0 ≤ hp_current skirmish_combatant + -4 ≤ hp_max skirmish_combatant)%Z
    as Hmid by (cbn; lia).
  split; [exact Hs|]. split; [exact Hc|]. split; [exact Hmid|].
  exact (X12_update_hp_composes "t4" "t5" "t6" "s1" "a" (-4) 4 (serve muster ∅)
           muster_session skirmish_combatant Hs Hc Hmid).
Defined.





(** ** Where a new combatant lands *)

Lemma insert_by_initiative_front x l :
  Forall (by_initiative_desc x) l → insert_by_initiative x l = x :: l.
Proof.
  destruct 1 as [|y l Hy _]; cbn; [done|].
  unfold by_initiative_desc in Hy. by rewrite (proj2 (Z.leb_le _ _) Hy).
Qed.

Lemma filter_all {A} (P : A → Prop) `{!∀ x, Decision (P x)} l :
  Forall P l → filter P l = l.
Proof.
  induction 1 as [|x l Hx _ IH]; [done|]. by rewrite filter_cons_True, IH.
Qed.

Lemma filter_none {A} (P : A → Prop) `{!∀ x, Decision (P x)} l :
  Forall (λ x, ¬ P x) l → filter P l = [].
Proof.
  induction 1 as [|x l Hx _ IH]; [done|]. by rewrite filter_cons_False, IH.
Qed.

(** A sorted list is its part at or above a score followed by its part
    below it. *)
Lemma sorted_split (i : Z) l :
  StronglySorted by_initiative_desc l →
  l = (filter (λ x, (i ≤ initiative x)%Z) l
       ++ filter (λ x, (initiative x < i)%Z) l)%list.
Proof.
  induction 1 as [|x l Hs IH Hall]; [done|].
  destruct (decide (i ≤ initiative x)%Z) as [Hx|Hx].
  - rewrite filter_cons_True, filter_cons_False by lia. cbn. by rewrite <- IH.
  - rewrite filter_cons_False, filter_cons_True by lia.
    rewrite filter_none, filter_all; [done| |];
      (eapply Forall_impl; [exact Hall|]); unfold by_initiative_desc;
      intros y Hy; cbn; lia.
Qed.

(** Appending to a sorted sequence and sorting puts the newcomer behind
    everyone whose initiative is at least its own and in front of the
    rest. *)
Lemma sort_by_initiative_desc_snoc l c :
  StronglySorted by_initiative_desc l →
  sort_by_initiative_desc (l ++ [c])
  = (filter (λ x, (initiative c ≤ initiative x)%Z) l
     ++ c :: filter (λ x, (initiative x < initiative c)%Z) l)%list.
Proof.
  induction 1 as [|x l Hs IH Hall]; [done|].
  change (sort_by_initiative_desc ((x :: l) ++ [c]))
    with (insert_by_initiative x (sort_by_initiative_desc (l ++ [c]))).
  rewrite IH. destruct (decide (initiative c ≤ initiative x)%Z) as [Hx|Hx].
  - rewrite filter_cons_True, filter_cons_False by lia.
    apply insert_by_initiative_front, Forall_app. split; [|constructor].
    + apply Forall_forall. intros y [_ Hy]%list_elem_of_filter.
      rewrite Forall_forall in Hall. by apply Hall.
    + done.
    + apply Forall_forall. intros y [_ Hy]%list_elem_of_filter.
      rewrite Forall_forall in Hall. by apply Hall.
  - rewrite filter_cons_False, filter_cons_True by lia.
    assert (Forall (λ y, (initiative y < initiative c)%Z) l) as Hlow.
    { eapply Forall_impl; [exact Hall|]. unfold by_initiative_desc.
      intros y Hy. cbn. lia. }
    rewrite filter_none, filter_all; [|done|].
    2:{ eapply Forall_impl; [exact Hlow|]. intros y Hy. cbn in *. lia. }
    cbn. rewrite (proj2 (Z.leb_gt _ _)) by lia.
    by rewrite insert_by_initiative_front.
Qed.

(** X14. On a session whose combatants are in initiative order
    [add_combatant] places the newcomer behind every combatant whose
    initiative is at least its own and in front of all others, and leaves
    the cursor index alone. A combatant with at least the newcomer's
    initiative keeps its index; one with less moves one place down, so a
    cursor that stood on it now stands on another combatant. *)
Theorem X14_add_combatant_position uuid now request σ s :
  σ !! acr_combat_id request = Some s →
  StronglySorted by_initiative_desc (combatants s) →
  ∃ s', add_combatant uuid now request σ
          = (<[acr_combat_id request := s']> σ, inr s')
    ∧ combatants s'
      = (filter (λ x, (acr_initiative request ≤ initiative x)%Z) (combatants s)
         ++ new_combatant uuid request
            :: filter (λ x, (initiative x < acr_initiative request)%Z)
                 (combatants s))%list
    ∧ current_turn s' = current_turn s
    ∧ round_number s' = round_number s
    ∧ ∀ t x, combatants s !! t = Some x →
        ((acr_initiative request ≤ initiative x)%Z → combatants s' !! t = Some x)
        ∧ ((initiative x < acr_initiative request)%Z →
           combatants s' !! S t = Some x).
Proof.
  intros Hs Hsorted. exists (with_combatant uuid now request s).
  split; [by apply add_combatant_found|].
  rewrite with_combatant_combatants, sort_by_initiative_desc_snoc by done.
  change (initiative (new_combatant uuid request)) with (acr_initiative request).
  split; [done|]. split; [done|]. split; [done|].
  intros t x Ht.
  pose proof (sorted_split (acr_initiative request) _ Hsorted) as Hsplit.
  set (A := filter (λ x, (acr_initiative request ≤ initiative x)%Z) (combatants s)) in *.
  set (B := filter (λ x, (initiative x < acr_initiative request)%Z) (combatants s)) in *.
  rewrite Hsplit in Ht. split; intros Hx.
  - destruct (decide (t < length A)%nat) as [Hlt|Hge].
    + rewrite lookup_app_l in Ht |- * by done. done.
    + rewrite lookup_app_r in Ht by lia.
      apply list_elem_of_lookup_2, list_elem_of_filter in Ht as [Hlow _]. lia.
  - destruct (decide (t < length A)%nat) as [Hlt|Hge].
    + rewrite lookup_app_l in Ht by done.
      apply list_elem_of_lookup_2, list_elem_of_filter in Ht as [Hhigh _]. lia.
    + rewrite lookup_app_r in Ht |- * by lia.
      replace (S t - length A)%nat with (S (t - length A)) by lia. done.
Qed.

Lemma X14_add_combatant_position_witness :
  serve muster ∅ !! "s1" = Some muster_session
  ∧ StronglySorted by_initiative_desc (combatants muster_session)
  ∧ ∃ s', add_combatant "d" "t4"
            (mkAddCombatantRequest "s1" "Wolf" 15 11 11 None "monster" None)
            (serve muster ∅)
          = (<["s1" := s']> (serve muster ∅), inr s')
      ∧ combatants s'
        = (filter (λ x, (15 ≤ initiative x)%Z) (combatants muster_session)
           ++ new_combatant "d"
                (mkAddCombatantRequest "s1" "Wolf" 15 11 11 None "monster" None)
              :: filter (λ x, (initiative x < 15)%Z) (combatants muster_session))%list
      ∧ current_turn s' = current_turn muster_session
      ∧ round_number s' = round_number muster_session
      ∧ ∀ t x, combatants muster_session !! t = Some x →
          ((15 ≤ initiative x)%Z → combatants s' !! t = Some x)
          ∧ ((initiative x < 15)%Z → combatants s' !! S t = Some x).
Proof.
  assert (serve muster ∅ !! "s1" = Some muster_session) as Hs
    by (vm_compute; reflexivity).
  assert (StronglySorted by_initiative_desc (combatants muster_session)) as Hsorted.
  { cbn. repeat (constructor; try (unfold by_initiative_desc; cbn; lia)). }
  split; [exact Hs|]. split; [exact Hsorted|].
  exact (X14_add_combatant_position "d" "t4"
           (mkAddCombatantRequest "s1" "Wolf" 15 11 11 None "monster" None)
           (serve muster ∅) muster_session Hs Hsorted).
Defined.

(** ** Adding and removing a combatant *)

Lemma trace_cursor_inv qs k s :
  NoDup (uuids qs) → serve qs ∅ !! k = Some s → cursor_inv (uuids qs) s.
Proof.
  intros Hnd Hk.
  apply (trace_invariant (λ _, True) cursor_inv) with (k := k);
    [| | |done|by apply Forall_true|done].
  - intros h h' s0 (Hsub & ? & ?). split; [|done].
    intros x Hx. apply elem_of_app. auto.
  - intros h u n r _. unfold cursor_inv, len. cbn.
    split; [apply list_subseteq_nil | split; [constructor | lia]].
  - intros h q s0 s' _. apply cursor_inv_step.
Qed.

Lemma trace_initiative_inv qs k s :
  NoDup (uuids qs) → serve qs ∅ !! k = Some s → initiative_inv (uuids qs) s.
Proof.
  intros Hnd Hk.
  apply (trace_invariant (λ _, True) initiative_inv) with (k := k);
    [| | |done|by apply Forall_true|done].
  - intros h h' s0 [? Ht]. split; [done|]. intros i. apply sublist_inserts_r, Ht.
  - intros h u n r _. split; [constructor | intros i; apply sublist_nil_l].
  - intros h q s0 s' _ Hs0 _. by apply initiative_inv_step.
Qed.

(** X15. In a state the process can reach, adding a combatant and then
    removing it by the id it was given restores the session: same
    combatants in the same order, same cursor, same round; only
    [updated_at] has moved. *)
Theorem X15_add_then_remove qs uuid now1 now2 request s :
  NoDup (uuids (qs ++ [AddCombatant uuid now1 request])) →
  serve qs ∅ !! acr_combat_id request = Some s →
  ∃ s1,
    add_combatant uuid now1 request (serve qs ∅)
      = (<[acr_combat_id request := s1]> (serve qs ∅), inr s1)
    ∧ remove_combatant now2 (acr_combat_id request) uuid
        (<[acr_combat_id request := s1]> (serve qs ∅))
      = (<[acr_combat_id request := set_updated_at now2 s]>
           (<[acr_combat_id request := s1]> (serve qs ∅)),
         inr (set_updated_at now2 s)).
Proof.
  intros Hnd Hs. rewrite uuids_snoc in Hnd.
  apply NoDup_app in Hnd as (Hnd & Hfresh & _).
  destruct (trace_cursor_inv qs _ s Hnd Hs) as (Hsub & Hids & Hturn).
  destruct (trace_initiative_inv qs _ s Hnd Hs) as [Hsorted _].
  assert (uuid ∉ c_id <$> combatants s) as Hnew.
  { intros Hin. apply (Hfresh uuid); [by apply Hsub | cbn; left]. }
  exists (with_combatant uuid now1 request s).
  split; [by apply add_combatant_found|].
  rewrite (remove_combatant_found now2 _ uuid _ (with_combatant uuid now1 request s))
    by apply lookup_insert_eq.
  assert (without_combatant uuid (combatants (with_combatant uuid now1 request s))
          = combatants s) as Hback.
  { rewrite with_combatant_combatants, sort_by_initiative_desc_snoc by done.
    rewrite (sorted_split (initiative (new_combatant uuid request)) (combatants s))
      at 3 by done.
    unfold without_combatant. rewrite filter_app, filter_cons_False by (cbn; tauto).
    f_equal; apply filter_all, Forall_forall;
      intros x [_ Hx]%list_elem_of_filter Heq; apply Hnew, list_elem_of_fmap; eauto. }
  assert (removed now2 uuid (with_combatant uuid now1 request s)
          = set_updated_at now2 s) as ->; [|done].
  unfold removed. rewrite Hback.
  replace ((len (combatants s) <=? current_turn (with_combatant uuid now1 request s))%Z
           && match combatants s with [] => false | _ :: _ => true end)
    with false.
  - unfold with_combatant. by destruct s.
  - symmetry. change (current_turn (with_combatant uuid now1 request s))
      with (current_turn s).
    unfold len in *. destruct (combatants s) as [|c l]; [apply andb_false_r|].
    rewrite andb_true_r. apply Z.leb_gt. cbn [length] in *. lia.
Qed.

Lemma X15_add_then_remove_witness :
  NoDup (uuids (skirmish ++ [AddCombatant "d" "t7"
           (mkAddCombatantRequest "s1" "Wolf" 15 11 11 None "monster" None)]))
  ∧ serve skirmish ∅ !! "s1" = Some skirmish_session
  ∧ ∃ s1,
      add_combatant "d" "t7"
        (mkAddCombatantRequest "s1" "Wolf" 15 11 11 None "monster" None)
        (serve skirmish ∅)
        = (<["s1" := s1]> (serve skirmish ∅), inr s1)
      ∧ remove_combatant "t8" "s1" "d" (<["s1" := s1]> (serve skirmish ∅))
        = (<["s1" := set_updated_at "t8" skirmish_session]>
             (<["s1" := s1]> (serve skirmish ∅)),
           inr (set_updated_at "t8" skirmish_session)).
Proof.
  assert (NoDup (uuids (skirmish ++ [AddCombatant "d" "t7"
            (mkAddCombatantRequest "s1" "Wolf" 15 11 11 None "monster" None)])))
    as Hnd by (apply (bool_decide_unpack _); vm_compute; reflexivity).
  assert (serve skirmish ∅ !! "s1" = Some skirmish_session) as Hs
    by (vm_compute; reflexivity).
  split; [exact Hnd|]. split; [exact Hs|].
  exact (X15_add_then_remove skirmish "d" "t7" "t8"
           (mkAddCombatantRequest "s1" "Wolf" 15 11 11 None "monster" None)
           skirmish_session Hnd Hs).
Defined.

(** X16. [remove_combatant] on an existing session leaves no combatant with
    the given id and keeps all the others in their order, so a second
    removal changes no combatant and [update_hp] on that id is answered with
    404 "Combatant not found". Where ids are distinct and the id was
    present, the sequence is shorter by exactly one. *)
Theorem X16_remove_combatant_removes now k cid σ s :
  σ !! k = Some s →
  ∃ s', remove_combatant now k cid σ = (<[k := s']> σ, inr s')
    ∧ combatants s' = filter (λ c, c_id c ≠ cid) (combatants s)
    ∧ (cid ∉ c_id <$> combatants s')
    ∧ (∀ now' d, update_hp now' (mkUpdateHPRequest k cid d) (<[k := s']> σ)
                 = (<[k := s']> σ, inl not_found_combatant))
    ∧ (∀ now', ∃ s'',
         remove_combatant now' k cid (<[k := s']> σ)
           = (<[k := s'']> (<[k := s']> σ), inr s'')
         ∧ combatants s'' = combatants s')
    ∧ (NoDup (c_id <$> combatants s) → (cid ∈ c_id <$> combatants s) →
       length (combatants s) = S (length (combatants s'))).
Proof.
  intros Hs. exists (removed now cid s).
  split; [by apply remove_combatant_found|]. rewrite removed_combatants.
  assert (cid ∉ c_id <$> without_combatant cid (combatants s)) as Hgone.
  { intros (c & Hc & [Hne _]%list_elem_of_filter)%list_elem_of_fmap. congruence. }
  split; [done|]. split; [done|]. split; [|split].
  - intros now' d. apply (update_hp_no_combatant now' _ _ (removed now cid s));
      [apply lookup_insert_eq|].
    rewrite removed_combatants. by apply find_combatant_None.
  - intros now'. exists (removed now' cid (removed now cid s)).
    split; [apply remove_combatant_found, lookup_insert_eq|].
    rewrite !removed_combatants. by apply without_combatant_absent.
  - intros Hnd Hin. apply Nat.le_antisymm.
    + by apply without_combatant_length.
    + clear Hgone Hs. unfold without_combatant.
      induction (combatants s) as [|c l IH]; [by apply elem_of_nil in Hin|].
      rewrite fmap_cons in Hnd, Hin. apply NoDup_cons in Hnd as [Hc Hnd].
      destruct (decide (c_id c = cid)) as [Heq|Hne].
      * rewrite filter_cons_False by tauto. cbn [length].
        apply le_n_S, length_filter.
      * rewrite filter_cons_True by done. cbn [length]. apply le_n_S, IH; [done|].
        apply elem_of_cons in Hin as [Hin|Hin]; [congruence | done].
Qed.

Lemma X16_remove_combatant_removes_witness :
  serve standoff ∅ !! "s1" = Some standoff_session
  ∧ ∃ s', remove_combatant "t6" "s1" "b" (serve standoff ∅)
            = (<["s1" := s']> (serve standoff ∅), inr s')
      ∧ combatants s' = filter (λ c, c_id c ≠ "b") (combatants standoff_session)
      ∧ ("b" ∉ c_id <$> combatants s')
      ∧ (∀ now' d, update_hp now' (mkUpdateHPRequest "s1" "b" d)
                     (<["s1" := s']> (serve standoff ∅))
                   = (<["s1" := s']> (serve standoff ∅), inl not_found_combatant))
      ∧ (∀ now', ∃ s'',
           remove_combatant now' "s1" "b" (<["s1" := s']> (serve standoff ∅))
             = (<["s1" := s'']> (<["s1" := s']> (serve standoff ∅)), inr s'')
           ∧ combatants s'' = combatants s')
      ∧ (NoDup (c_id <$> combatants standoff_session) →
         ("b" ∈ c_id <$> combatants standoff_session) →
         length (combatants standoff_session) = S (length (combatants s'))).
Proof.
  assert (serve standoff ∅ !! "s1" = Some standoff_session) as Hs
    by (vm_compute; reflexivity).
  split; [exact Hs|].
  exact (X16_remove_combatant_removes "t6" "s1" "b" (serve standoff ∅)
           standoff_session Hs).
Defined.

(** ** A full round from anywhere *)

Lemma serve_app qs1 qs2 σ : serve (qs1 ++ qs2) σ = serve qs2 (serve qs1 σ).
Proof. unfold serve. by rewrite foldl_app. Qed.

(** X17. From any cursor inside the order, as many [next_turn] calls as
    there are combatants bring the cursor back to where it was, with the
    round number up by exactly one and the combatants untouched. *)
Theorem X17_full_round_returns nows request σ s :
  σ !! ntr_combat_id request = Some s →
  (0 ≤ current_turn s < len (combatants s))%Z →
  length nows = length (combatants s) →
  ∃ s', serve ((λ now, NextTurn now request) <$> nows) σ
          !! ntr_combat_id request = Some s'
    ∧ current_turn s' = current_turn s
    ∧ round_number s' = (round_number s + 1)%Z
    ∧ combatants s' = combatants s.
Proof.
  intros Hs Hturn Hlen. unfold len in Hturn.
  set (n := length (combatants s)) in *.
  set (t := Z.to_nat (current_turn s)).
  assert (current_turn s = Z.of_nat t) as Ht by (unfold t; lia).
  assert (t < n)%nat as Htn by lia.
  rewrite <- (take_drop (n - 1 - t) nows), fmap_app, serve_app.
  destruct (drop (n - 1 - t) nows) as [|w rest] eqn:Hdrop.
  { apply (f_equal length) in Hdrop. rewrite length_drop in Hdrop. cbn in Hdrop. lia. }
  assert (length rest = t) as Hrest.
  { apply (f_equal length) in Hdrop. rewrite length_drop in Hdrop. cbn in Hdrop. lia. }
  assert (length (take (n - 1 - t) nows) = (n - 1 - t)%nat) as Htake.
  { rewrite length_take. lia. }
  destruct (serve_next_turns request (take (n - 1 - t) nows) σ s Hs)
    as (s1 & Hs1 & Ht1 & Hr1 & Hc1); [lia | unfold len; fold n; lia |].
  rewrite fmap_cons, serve_cons.
  assert (combatants s1 ≠ []) as Hne1.
  { rewrite Hc1. intros He. unfold n in Htn. rewrite He in Htn. cbn in Htn. lia. }
  rewrite (state_after_next _ _ _ _ Hs1 Hne1).
  destruct (advanced_wrap w s1) as [Ht2 Hr2].
  { rewrite Hc1, Ht1. unfold len. fold n. lia. }
  destruct (serve_next_turns request rest
              (<[ntr_combat_id request := advanced w s1]>
                 (serve ((λ now, NextTurn now request) <$> take (n - 1 - t) nows) σ))
              (advanced w s1))
    as (s3 & Hs3 & Ht3 & Hr3 & Hc3);
    [apply lookup_insert_eq | lia
    | rewrite advanced_combatants, Hc1, Ht2; unfold len; fold n; lia |].
  exists s3. split; [done|].
  rewrite Ht3, Hr3, Hc3, Ht2, Hr2, Hr1, advanced_combatants, Hc1.
  unfold len. split; [lia | done].
Qed.

Lemma X17_full_round_returns_witness :
  serve standoff ∅ !! "s1" = Some standoff_session
  ∧ (0 ≤ current_turn standoff_session < len (combatants standoff_session))%Z
  ∧ length ["t6"; "t7"; "t8"] = length (combatants standoff_session)
  ∧ ∃ s', serve ((λ now, NextTurn now (mkNextTurnRequest "s1")) <$> ["t6"; "t7"; "t8"])
                (serve standoff ∅) !! "s1" = Some s'
      ∧ current_turn s' = current_turn standoff_session
      ∧ round_number s' = (round_number standoff_session + 1)%Z
      ∧ combatants s' = combatants standoff_session.
Proof.
  assert (serve standoff ∅ !! "s1" = Some standoff_session) as Hs
    by (vm_compute; reflexivity).
  assert (0 ≤ current_turn standoff_session < len (combatants standoff_session))%Z
    as Hturn by (vm_compute; split; [discriminate | reflexivity]).
  split; [exact Hs|]. split; [exact Hturn|]. split; [reflexivity|].
  exact (X17_full_round_returns ["t6"; "t7"; "t8"] (mkNextTurnRequest "s1")
           (serve standoff ∅) standoff_session Hs Hturn eq_refl).
Defined.

(** ** What a removal does to the positions *)

Lemma without_combatant_delete l : ∀ i c,
  NoDup (c_id <$> l) → l !! i = Some c →
  without_combatant (c_id c) l = delete i l.
Proof.
  unfold without_combatant.
  induction l as [|d l IH]; intros i c Hnd Hi; [done|].
  rewrite fmap_cons in Hnd. apply NoDup_cons in Hnd as [Hd Hnd].
  destruct i as [|i]; cbn in Hi.
  - injection Hi as ->. rewrite filter_cons_False by tauto. cbn.
    by apply without_combatant_absent.
  - rewrite filter_cons_True.
    + cbn. f_equal. by apply IH.
    + intros Heq. apply Hd. rewrite Heq. apply list_elem_of_fmap.
      exists c. split; [done|]. by eapply list_elem_of_lookup_2.
Qed.

(** X18. Where ids are distinct, removing the combatant at index [i] deletes
    that one position: combatants in front of it keep their index, those
    behind it move up by one. The cursor index is kept as long as it still
    addresses a combatant (it is not decremented), so a cursor at or behind
    [i] afterwards stands on the combatant that used to follow. *)
Theorem X18_remove_combatant_shifts now k σ s i c :
  σ !! k = Some s → NoDup (c_id <$> combatants s) →
  combatants s !! i = Some c →
  ∃ s', remove_combatant now k (c_id c) σ = (<[k := s']> σ, inr s')
    ∧ combatants s' = delete i (combatants s)
    ∧ (∀ j, (j < i)%nat → combatants s' !! j = combatants s !! j)
    ∧ (∀ j, (i ≤ j)%nat → combatants s' !! j = combatants s !! S j)
    ∧ ((current_turn s < len (combatants s) - 1)%Z →
       current_turn s' = current_turn s)
    ∧ ((len (combatants s) - 1 ≤ current_turn s)%Z →
       (1 < len (combatants s))%Z → current_turn s' = 0%Z).
Proof.
  intros Hs Hnd Hi. exists (removed now (c_id c) s).
  split; [by apply remove_combatant_found|].
  rewrite removed_combatants, (without_combatant_delete _ i c) by done.
  split; [done|]. split; [intros j Hj; by apply list_lookup_delete_lt|].
  split; [intros j Hj; by apply list_lookup_delete_ge|].
  assert (length (combatants s) = S (length (delete i (combatants s)))) as Hlen.
  { rewrite length_delete by eauto. apply lookup_lt_Some in Hi. lia. }
  unfold removed. rewrite (without_combatant_delete _ i c) by done.
  unfold len. rewrite Hlen. split.
  - intros Hlt. rewrite (proj2 (Z.leb_gt _ _)) by lia. done.
  - intros Hge Hmany. rewrite (proj2 (Z.leb_le _ _)) by lia.
    destruct (delete i (combatants s)); [cbn in *; lia | done].
Qed.

Lemma X18_remove_combatant_shifts_witness :
  serve muster ∅ !! "s1" = Some muster_session
  ∧ NoDup (c_id <$> combatants muster_session)
  ∧ combatants muster_session !! 0%nat = Some skirmish_combatant
  ∧ ∃ s', remove_combatant "t4" "s1" (c_id skirmish_combatant) (serve muster ∅)
            = (<["s1" := s']> (serve muster ∅), inr s')
      ∧ combatants s' = delete 0%nat (combatants muster_session)
      ∧ (∀ j, (j < 0)%nat → combatants s' !! j = combatants muster_session !! j)
      ∧ (∀ j, (0 ≤ j)%nat → combatants s' !! j = combatants muster_session !! S j)
      ∧ ((current_turn muster_session < len (combatants muster_session) - 1)%Z →
         current_turn s' = current_turn muster_session)
      ∧ ((len (combatants muster_session) - 1 ≤ current_turn muster_session)%Z →
         (1 < len (combatants muster_session))%Z → current_turn s' = 0%Z).
Proof.
  assert (serve muster ∅ !! "s1" = Some muster_session) as Hs
    by (vm_compute; reflexivity).
  assert (NoDup (c_id <$> combatants muster_session)) as Hnd
    by (apply (bool_decide_unpack _); vm_compute; reflexivity).
  assert (combatants muster_session !! 0%nat = Some skirmish_combatant) as Hi
    by reflexivity.
  split; [exact Hs|]. split; [exact Hnd|]. split; [exact Hi|].
  exact (X18_remove_combatant_shifts "t4" "s1" (serve muster ∅) muster_session
           0 skirmish_combatant Hs Hnd Hi).
Defined.
